(** * plugins/inputs/odyssey/odyssey.go: the Odyssey input plugin

    A shallow embedding of [accRow] and [Gather] and the properties of the
    row-to-metric mapping they implement.

    Representation choices, all read off the Go source:
    - a Go [string] is a byte sequence: Rocq's [string] (a list of [ascii]);
    - an [interface{}] slot filled by the driver is a [value], the tagged
      union of the dynamic types a [database/sql] driver may store;
    - [map[string]T] is stdpp's [gmap string T];
    - a [(T, error)] return is [error + T] ([inl] carries the error); code
      of the plugin itself, which can also panic, returns a [result];
    - the accumulator is the log of the [AddFields] calls it received. *)

From Stdlib Require Import ZArith Ascii String.
From stdpp Require Import gmap strings list fin_maps.

Local Open Scope string_scope.
Local Open Scope list_scope.
Local Open Scope Z_scope.

(** ** Values, errors, outcomes *)

(** The dynamic types behind an [interface{}] destination after
    [Rows.Scan]: [nil] (SQL NULL, also the content of a fresh
    [new(interface{})]), [int64], [float64] (kept as its bit pattern),
    [bool], [[]byte], [string] and [time.Time] (kept as nanoseconds). *)
Inductive value : Type :=
  | VNil
  | VInt64 (n : Z)
  | VFloat64 (bits : Z)
  | VBool (b : bool)
  | VBytes (bs : list ascii)
  | VString (s : string)
  | VTime (ns : Z).

(** [strconv.NumError.Err] *)
Inductive numErr : Type := ErrSyntax | ErrRange.

(** Go [error] values: the [*strconv.NumError] that [ParseInt] builds
    (fields [Func], [Num], [Err]) and the errors of the collaborators
    (driver, address sanitizer), opaque up to their message. *)
Inductive error : Type :=
  | NumError (func num : string) (err : numErr)
  | ExtError (msg : string).

(** A run-time panic: the failed type assertion [x.(string)] on a value
    whose dynamic type is not [string]. *)
Inductive panic : Type :=
  | InterfaceConversion (x : value).

(** What a call of the plugin's own code does: return normally, return a
    non-nil [error], or panic. *)
Inductive result (A : Type) : Type :=
  | Ok (a : A)
  | Err (e : error)
  | Panic (p : panic).
Arguments Ok {A} a.
Arguments Err {A} e.
Arguments Panic {A} p.

Definition is_ok {A} (r : result A) : bool :=
  match r with Ok _ => true | _ => false end.
Definition is_err {A} (r : result A) : bool :=
  match r with Err _ => true | _ => false end.
Definition is_panic {A} (r : result A) : bool :=
  match r with Panic _ => true | _ => false end.

(** ** strconv.ParseInt, as called at odyssey.go:81 (base 10, bitSize 64)

    [strconv] is Go's standard library; the two functions below follow its
    source for [base = 10] and [bitSize = 64], the only arguments the
    plugin passes.  [uint64] arithmetic is written with its wrap-around. *)
Module strconv.

Definition maxUint64 : Z := 2 ^ 64 - 1.
Definition wrap64 (n : Z) : Z := n mod 2 ^ 64.

Definition byte_of (c : ascii) : Z := Z.of_N (N_of_ascii c).

(** [lower(c) = c | ('x' - 'X')] *)
Definition lower (c : Z) : Z := Z.lor c 32.

(** The body of [for _, c := range []byte(s)] in [ParseUint]; [n] is the
    accumulator.  The result is the pair [(uint64, Err)] that
    [ParseUint] returns, [None] standing for a nil error. *)
Fixpoint parseDigits (s : string) (n : Z) : Z * option numErr :=
  match s with
  | EmptyString => (n, None)
  | String ch rest =>
      let c := byte_of ch in
      let cutoff := maxUint64 / 10 + 1 in
      let maxVal := wrap64 (wrap64 (Z.shiftl 1 64) - 1) in
      let d :=
        if (48 <=? c) && (c <=? 57) then Some (c - 48)
        else if (97 <=? lower c) && (lower c <=? 122)
             then Some (lower c - 97 + 10)
             else None in
      match d with
      | None => (0, Some ErrSyntax)
      | Some d =>
          if 10 <=? d then (0, Some ErrSyntax)
          else if cutoff <=? n then (maxVal, Some ErrRange)
          else
            let n' := wrap64 (n * 10) in
            let n1 := wrap64 (n' + d) in
            if (n1 <? n') || (maxVal <? n1) then (maxVal, Some ErrRange)
            else parseDigits rest n1
      end
  end.

Definition ParseUint (s : string) : Z * option numErr :=
  match s with
  | EmptyString => (0, Some ErrSyntax)
  | _ => parseDigits s 0
  end.

(** [ParseInt(s, 10, 64)]: the pair [(i, err)]. *)
Definition ParseInt (s0 : string) : Z * option error :=
  match s0 with
  | EmptyString => (0, Some (NumError "ParseInt" s0 ErrSyntax))
  | String c0 rest =>
      let '(neg, s) :=
        if Ascii.eqb c0 "+" then (false, rest)
        else if Ascii.eqb c0 "-" then (true, rest)
        else (false, s0) in
      let '(un, err) := ParseUint s in
      match err with
      | Some ErrSyntax => (0, Some (NumError "ParseInt" s0 ErrSyntax))
      | _ =>
          let cutoff := 2 ^ 63 in
          if negb neg && (cutoff <=? un)
          then (cutoff - 1, Some (NumError "ParseInt" s0 ErrRange))
          else if neg && (cutoff <? un)
          then (- cutoff, Some (NumError "ParseInt" s0 ErrRange))
          else ((if neg then - un else un), None)
      end
  end.

End strconv.

(** ** The collaborators *)

(** [type scanner interface { Scan(dest ...interface{}) error }].  Given
    the number of destinations, a scanner either fails or stores values
    through them, in order; a destination it does not reach keeps its
    content. *)
Record scanner : Type := { Scan : nat → error + list value }.

(** A row of [*sql.Rows] holding the decoded values [vals]: [Scan] wants as
    many destinations as the row has columns and stores each value as it
    is into an [*interface{}] destination. *)
Definition sqlRow (vals : list value) : scanner :=
  {| Scan n :=
       if decide (n = length vals) then inr vals
       else inl (ExtError "sql: wrong number of destination arguments in Scan") |}.

(** [*sql.Rows]: what [Columns()] returns, the rows for which [Next()]
    returns true, and what [Err()] returns once [Next()] returned false. *)
Record Rows : Type := {
  Columns : error + list string;
  rowList : list scanner;
  rowsErr : option error
}.

(** [postgresql.Service], embedded in [Odyssey]: the query collaborator
    [p.DB.Query] and the address sanitizer [p.SanitizedAddress], a function
    of the configuration alone. *)
Record Odyssey : Type := {
  Query : string → error + Rows;
  SanitizedAddress : error + string
}.

(** One [acc.AddFields(measurement, fields, tags)] call. *)
Record Metric : Type := {
  measurement : string;
  fields : gmap string value;
  tags : gmap string string
}.

(** [telegraf.Accumulator], as the log of its [AddFields] calls. *)
Definition Accumulator : Type := list Metric.

Definition AddFields (acc : Accumulator) (name : string)
    (fs : gmap string value) (ts : gmap string string) : Accumulator :=
  acc ++ [{| measurement := name; fields := fs; tags := ts |}].

(** ** Package-level state *)

Definition ignoredColumns : gmap string bool :=
  <["user" := true]> (<["database" := true]> (<["pool_mode" := true]>
  (<["avg_req" := true]> (<["avg_recv" := true]> (<["avg_sent" := true]>
  (<["avg_query" := true]> ∅)))))).

(** [_, ignore := ignoredColumns[col]] *)
Definition ignore (col : string) : bool :=
  bool_decide (is_Some (ignoredColumns !! col)).

(** ** Ranging over a map

    [for col, val := range columnMap] visits every entry once, in an order
    Go leaves unspecified and that may differ from one loop to the next.
    The order is an input of the model: [range ro ps i m] is the order in
    which the [i]-th row of pass [ps] visits the entries of [m]. *)
Inductive pass : Type := Stats | Pools.

Record RangeOrder : Type := {
  range : pass → nat → gmap string value → list (string * value);
  range_perm : ∀ ps i m, range ps i m ≡ₚ map_to_list m
}.

(** ** Running the plugin: accumulator state plus a [result] *)

Definition Run (A : Type) : Type := Accumulator → Accumulator * result A.

Definition ret {A} (a : A) : Run A := λ acc, (acc, Ok a).

Definition bind {A B} (m : Run A) (k : A → Run B) : Run B :=
  λ acc,
    match m acc with
    | (acc', Ok a) => k a acc'
    | (acc', Err e) => (acc', Err e)
    | (acc', Panic x) => (acc', Panic x)
    end.

(** [v, err := f(); if err != nil { return err }] *)
Definition try {A} (r : error + A) : Run A :=
  λ acc, match r with inl err => (acc, Err err) | inr a => (acc, Ok a) end.

(** A call of plugin code that does not touch the accumulator. *)
Definition lift {A} (r : result A) : Run A := λ acc, (acc, r).

(** [acc.AddFields(name, fields, tags)] *)
Definition emit (name : string) (fs : gmap string value)
    (ts : gmap string string) : Run unit :=
  λ acc, (AddFields acc name fs ts, Ok tt).

Notation "'do' x <- m ; k" := (bind m (λ x, k))
  (at level 10, x pattern, m at level 100, k at level 200,
   format "'[v' 'do'  x  <-  m ; '/' k ']'").

(** [for rows.Next() { body }]: the body runs on each row in turn, [i]
    counting them; a [return] (or a panic) in the body leaves the loop. *)
Fixpoint forRows (body : nat → scanner → Run unit) (i : nat)
    (rows : list scanner) : Run unit :=
  match rows with
  | [] => ret tt
  | row :: rows => do _ <- body i row; forRows body (S i) rows
  end.

(** ** accRow (odyssey.go:146-184)

    [columnMap] maps a column name to a pointer to a fresh [interface{}].
    Every pointer stored in the map is non-nil and belongs to one key, and
    the pointers handed to [Scan] are read back from the map, so a pointer
    is named by its key and the map is kept as [gmap string value], holding
    under each key the content of its slot: [columnMap[k] != nil] is
    [is_Some (columnMap !! k)], and [*columnMap[k]] is the value found. *)

(** Lines 152-156: one fresh slot, holding nil, per column name. *)
Definition newColumnMap (columns : list string) : gmap string value :=
  foldl (λ columnMap column, <[column := VNil]> columnMap) ∅ columns.

(** Lines 159-161: [columnVars], the slots of [columns[0]], ...,
    [columns[len(columnMap)-1]], each named by its key. *)
Definition newColumnVars (columnMap : gmap string value)
    (columns : list string) : list string :=
  take (size columnMap) columns.

(** A successful [Scan] stores its values through the destinations, in
    order. *)
Definition store (dests : list string) (vals : list value)
    (columnMap : gmap string value) : gmap string value :=
  foldl (λ m kv, <[kv.1 := kv.2]> m) columnMap (zip dests vals).

(** Lines 148-168: build the map, scan the row into it. *)
Definition scanRow (row : scanner) (columns : list string)
    : error + gmap string value :=
  let columnMap := newColumnMap columns in
  let columnVars := newColumnVars columnMap columns in
  match Scan row (length columnVars) with
  | inl err => inl err
  | inr vals => inr (store columnVars vals columnMap)
  end.

(** Lines 169-174: the [dbname] buffer.  The type assertion [.(string)]
    has no [ok] result: it panics on any other dynamic type. *)
Definition dbnameOf (columnMap : gmap string value) : result string :=
  match columnMap !! "database" with
  | Some (VString s) => Ok s
  | Some x => Panic (InterfaceConversion x)
  | None => Ok "postgres"
  end.

Definition accRow (p : Odyssey) (row : scanner) (columns : list string)
    : result (gmap string string * gmap string value) :=
  match scanRow row columns with
  | inl err => Err err
  | inr columnMap =>
      match dbnameOf columnMap with
      | Panic x => Panic x
      | Err err => Err err
      | Ok dbname =>
          match SanitizedAddress p with
          | inl err => Err err
          | inr tagAddress =>
              Ok (<["server" := tagAddress]> (<["db" := dbname]> ∅), columnMap)
          end
      end
  end.

(** ** Gather (odyssey.go:42-140) *)

(** Lines 70-88: the statistics pass builds [fields] from the entries of
    [columnMap], visited in the order [kvs]. *)
Fixpoint statsFields (kvs : list (string * value))
    (fields : gmap string value) : error + gmap string value :=
  match kvs with
  | [] => inr fields
  | (col, val) :: kvs =>
      if ignore col then statsFields kvs fields
      else
        match val with
        | VInt64 v => statsFields kvs (<[col := VInt64 v]> fields)
        | VString v =>
            let '(integer, err) := strconv.ParseInt v in
            match err with
            | Some err => inl err
            | None => statsFields kvs (<[col := VInt64 integer]> fields)
            end
        | _ => statsFields kvs fields
        end
  end.

(** Lines 64-89: the body of the statistics loop. *)
Definition statsRow (ro : RangeOrder) (p : Odyssey) (columns : list string)
    (i : nat) (row : scanner) : Run unit :=
  do (tags, columnMap) <- lift (accRow p row columns);
  do fields <- try (statsFields (range ro Stats i columnMap) ∅);
  emit "odyssey" fields tags.

(** Lines 129-135: the pool-status pass copies every entry that is not
    ignored. *)
Fixpoint poolFields (kvs : list (string * value))
    (fields : gmap string value) : gmap string value :=
  match kvs with
  | [] => fields
  | (col, val) :: kvs =>
      if negb (ignore col) then poolFields kvs (<[col := val]> fields)
      else poolFields kvs fields
  end.

(** Lines 117-127, written twice in the source, for the keys "user" and
    "pool_mode": when the column is in the map and its value asserts to a
    non-empty string [s] (the two-result form of the assertion, which does
    not panic), [tags[key] = s]. *)
Definition tagFrom (key : string) (columnMap : gmap string value)
    (tags : gmap string string) : gmap string string :=
  match columnMap !! key with
  | Some (VString s) =>
      if String.eqb s EmptyString then tags else <[key := s]> tags
  | _ => tags
  end.

(** Lines 112-136: the body of the pool-status loop. *)
Definition poolRow (ro : RangeOrder) (p : Odyssey) (columns : list string)
    (i : nat) (row : scanner) : Run unit :=
  do (tags, columnMap) <- lift (accRow p row columns);
  let tags := tagFrom "user" columnMap tags in
  let tags := tagFrom "pool_mode" columnMap tags in
  let fields := poolFields (range ro Pools i columnMap) ∅ in
  emit "odyssey_pools" fields tags.

(** [return poolRows.Err()] and [err = rows.Err(); if err != nil ...] *)
Definition checkErr (e : option error) : Run unit :=
  λ acc, match e with Some err => (acc, Err err) | None => (acc, Ok tt) end.

(** The deferred [rows.Close()] calls release the cursors and have no
    bearing on the metrics or on the returned error. *)
Definition Gather (ro : RangeOrder) (p : Odyssey) : Run unit :=
  do rows <- try (Query p "SHOW STATS");
  do columns <- try (Columns rows);
  do _ <- forRows (statsRow ro p columns) 0 (rowList rows);
  do _ <- checkErr (rowsErr rows);
  do poolRows <- try (Query p "SHOW POOLS");
  do columns <- try (Columns poolRows);
  do _ <- forRows (poolRow ro p columns) 0 (rowList poolRows);
  checkErr (rowsErr poolRows).

(** ** Concrete inputs *)

(** Any order will do for Go; two are used below: the order of
    [map_to_list], and its reverse. *)
Program Definition orderFwd : RangeOrder :=
  {| range _ _ m := map_to_list m |}.
Next Obligation. done. Qed.

Program Definition orderRev : RangeOrder :=
  {| range _ _ m := reverse (map_to_list m) |}.
Next Obligation. intros. apply reverse_Permutation. Qed.

(** A result set with the given column names and rows, ending with [e]. *)
Definition rowsOf (columns : list string) (rows : list (list value))
    (e : option error) : Rows :=
  {| Columns := inr columns; rowList := sqlRow <$> rows; rowsErr := e |}.

(** A proxy answering the two queries with the given result sets. *)
Definition proxy (stats pools : Rows) (address : error + string) : Odyssey :=
  {| Query q :=
       if String.eqb q "SHOW STATS" then inr stats
       else if String.eqb q "SHOW POOLS" then inr pools
       else inl (ExtError "unknown query");
     SanitizedAddress := address |}.

Definition noRows : Rows := rowsOf [] [] None.

(** ** Definitions used in the statements *)

(** The names in [ignoredColumns]. *)
Definition ignoredNames : list string :=
  ["user"; "database"; "pool_mode"; "avg_req"; "avg_recv"; "avg_sent";
   "avg_query"].

(** What the statistics pass stores for a value: an [int64] as it is, a
    string through [ParseInt], nothing for the other types. *)
Definition keep (val : value) : option value :=
  match val with
  | VInt64 v => Some (VInt64 v)
  | VString v =>
      match strconv.ParseInt v with
      | (integer, None) => Some (VInt64 integer)
      | (_, Some _) => None
      end
  | _ => None
  end.

(** The field set of a row whose strings all parse. *)
Definition statsSpec (m : gmap string value) : gmap string value :=
  omap keep (filter (λ kv, ignore kv.1 = false) m).

(** A row of the statistics pass is bad when a column outside the ignore
    set holds a string that [ParseInt] rejects. *)
Definition badRow (m : gmap string value) : Prop :=
  ∃ k s, m !! k = Some (VString s) ∧ ignore k = false
         ∧ (strconv.ParseInt s).2 ≠ None.

(** [badRow] as a test on the entries of the map. *)
Definition badEntry (kv : string * value) : bool :=
  negb (ignore kv.1) &&
  match kv.2 with
  | VString s =>
      match (strconv.ParseInt s).2 with Some _ => true | None => false end
  | _ => false
  end.

Definition badRowb (m : gmap string value) : bool :=
  existsb badEntry (map_to_list m).

(** The value of a string of decimal digits, continuing from [n]. *)
Fixpoint decimal (s : string) (n : Z) : option Z :=
  match s with
  | EmptyString => Some n
  | String ch rest =>
      let c := strconv.byte_of ch in
      if (48 <=? c) && (c <=? 57) then decimal rest (n * 10 + (c - 48))
      else None
  end.

(** The body of the loop of a pass. *)
Definition rowBody (ps : pass) (ro : RangeOrder) (p : Odyssey)
    (columns : list string) : nat → scanner → Run unit :=
  match ps with
  | Stats => statsRow ro p columns
  | Pools => poolRow ro p columns
  end.

(** Two outcomes of the same row agree: both succeed, both panic on the
    same value, or both return an error, the same one unless both come
    from [ParseInt] (when a row holds several unparsable strings, the one
    reported depends on the order in which the map is ranged over). *)
Definition sameOutcome (r1 r2 : result unit) : Prop :=
  match r1, r2 with
  | Ok _, Ok _ => True
  | Err e1, Err e2 =>
      e1 = e2 ∨ ∃ s1 k1 s2 k2, e1 = NumError "ParseInt" s1 k1
                                ∧ e2 = NumError "ParseInt" s2 k2
  | Panic x1, Panic x2 => x1 = x2
  | _, _ => False
  end.

(** The type assertion of [accRow] goes through on this row: the scan
    fails, or leaves no "database" entry, or leaves a string there. *)
Definition assertsString (columns : list string) (row : scanner) : bool :=
  match scanRow row columns with
  | inl _ => true
  | inr m => negb (is_panic (dbnameOf m))
  end.

(** The metric a statistics row logs when its body runs to the end: the
    tags of [accRow] and the field set of a row whose strings all parse. *)
Definition statsMetricOf (p : Odyssey) (columns : list string)
    (row : scanner) : option Metric :=
  match accRow p row columns with
  | Ok (tags, m) =>
      if badRowb m then None
      else Some {| measurement := "odyssey"; fields := statsSpec m;
                   tags := tags |}
  | _ => None
  end.

(** The metric a pool-status row logs when its body runs to the end. *)
Definition poolMetricOf (p : Odyssey) (columns : list string)
    (row : scanner) : option Metric :=
  match accRow p row columns with
  | Ok (tags, m) =>
      Some {| measurement := "odyssey_pools";
              fields := filter (λ kv, ignore kv.1 = false) m;
              tags := tagFrom "pool_mode" m (tagFrom "user" m tags) |}
  | _ => None
  end.

(** One pass of [Gather]: query, column listing, row loop, end-of-iteration
    check.  Lines 49-95 and 97-139 of the source have this shape, with
    their own query text and loop body ([Gather_phases] below). *)
Definition phase (p : Odyssey) (q : string)
    (body : list string → nat → scanner → Run unit) : Run unit :=
  do rows <- try (Query p q);
  do columns <- try (Columns rows);
  do _ <- forRows (body columns) 0 (rowList rows);
  checkErr (rowsErr rows).

(** Where an error returned by a cycle on [p] can come from: one of the
    collaborator calls, or [ParseInt] on a string of a statistics row in a
    column outside the ignore set. *)
Definition errorSource (p : Odyssey) (e : error) : Prop :=
  ∃ q, (q = "SHOW STATS" ∨ q = "SHOW POOLS") ∧
    (Query p q = inl e ∨
     ∃ rows, Query p q = inr rows ∧
       (Columns rows = inl e ∨ rowsErr rows = Some e ∨
        ∃ columns row,
          Columns rows = inr columns ∧ row ∈ rowList rows ∧
          (scanRow row columns = inl e ∨
           SanitizedAddress p = inl e ∨
           (q = "SHOW STATS" ∧
            ∃ m col s, scanRow row columns = inr m ∧
                       m !! col = Some (VString s) ∧ ignore col = false ∧
                       (strconv.ParseInt s).2 = Some e)))).

(** Where a panic of a cycle on [p] can come from: a row of one of the
    result sets whose "database" value is not a string. *)
Definition panicSource (p : Odyssey) (x : panic) : Prop :=
  ∃ q rows columns row m v,
    (q = "SHOW STATS" ∨ q = "SHOW POOLS") ∧
    Query p q = inr rows ∧ Columns rows = inr columns ∧
    row ∈ rowList rows ∧ scanRow row columns = inr m ∧
    m !! "database" = Some v ∧ (∀ s, v ≠ VString s) ∧
    x = InterfaceConversion v.

(** * Properties *)

(** ** The ignore set *)

Lemma ignore_spec (col : string) : ignore col = true ↔ col ∈ ignoredNames.
Proof.
  unfold ignore, ignoredColumns, ignoredNames.
  rewrite bool_decide_eq_true, !elem_of_cons, elem_of_nil.
  split.
  - intros [b Hb]. revert Hb.
    rewrite !lookup_insert. repeat case_decide; subst; try tauto.
    by rewrite lookup_empty.
  - intros H.
    repeat (destruct H as [->|H]; [eexists; vm_compute; reflexivity|]).
    destruct H.
Qed.

Lemma ignore_false (col : string) : ignore col = false ↔ col ∉ ignoredNames.
Proof. rewrite <- ignore_spec. destruct (ignore col); naive_solver. Qed.

(** ** Ranging: the entries visited are those of the map, once each *)

Lemma range_NoDup (ro : RangeOrder) ps i (m : gmap string value) :
  NoDup (range ro ps i m).*1.
Proof.
  rewrite (range_perm ro ps i m). apply NoDup_fst_map_to_list.
Qed.

Lemma range_to_map (ro : RangeOrder) ps i (m : gmap string value) :
  list_to_map (range ro ps i m) = m.
Proof.
  rewrite <- (list_to_map_to_list m) at 2.
  apply list_to_map_proper; [apply range_NoDup | apply range_perm].
Qed.

Lemma elem_of_range (ro : RangeOrder) ps i (m : gmap string value) k v :
  (k, v) ∈ range ro ps i m ↔ m !! k = Some v.
Proof. rewrite (range_perm ro ps i m). apply elem_of_map_to_list. Qed.

(** ** The pool-status field loop *)

Lemma poolFields_lookup kvs (fs : gmap string value) k :
  NoDup kvs.*1 →
  poolFields kvs fs !! k =
    match (list_to_map kvs : gmap string value) !! k with
    | Some v => if ignore k then fs !! k else Some v
    | None => fs !! k
    end.
Proof.
  revert fs. induction kvs as [|[col val] kvs IH]; intros fs Hnd; [done|].
  apply NoDup_cons in Hnd as [Hcol Hnd]. simpl.
  assert ((list_to_map kvs : gmap string value) !! col = None) as Hnone
    by by apply not_elem_of_list_to_map_1.
  destruct (ignore col) eqn:Hig; simpl; rewrite IH by done;
    rewrite lookup_insert; case_decide; subst;
    rewrite ?Hnone, ?Hig, ?lookup_insert_eq, ?lookup_insert_ne by done; done.
Qed.

Lemma poolFields_range (ro : RangeOrder) i (m : gmap string value) :
  poolFields (range ro Pools i m) ∅ = filter (λ kv, ignore kv.1 = false) m.
Proof.
  apply map_eq. intros k.
  rewrite poolFields_lookup by apply range_NoDup.
  rewrite range_to_map, map_lookup_filter, lookup_empty.
  destruct (m !! k) as [v|]; simpl; [|done].
  destruct (ignore k) eqn:Hig.
  - by rewrite option_guard_False by (simpl; congruence).
  - by rewrite option_guard_True.
Qed.

(** ** The statistics field loop *)

Lemma statsFields_lookup kvs (fs fs' : gmap string value) k :
  NoDup kvs.*1 →
  statsFields kvs fs = inr fs' →
  fs' !! k =
    match (list_to_map kvs : gmap string value) !! k with
    | Some v =>
        if ignore k then fs !! k
        else match keep v with Some w => Some w | None => fs !! k end
    | None => fs !! k
    end.
Proof.
  revert fs. induction kvs as [|[col val] kvs IH]; intros fs Hnd Hrun.
  { simpl in *. injection Hrun as <-. by rewrite lookup_empty. }
  apply NoDup_cons in Hnd as [Hcol Hnd]. simpl in Hrun |- *.
  assert ((list_to_map kvs : gmap string value) !! col = None) as Hnone
    by by apply not_elem_of_list_to_map_1.
  assert (∀ fs1 : gmap string value,
    statsFields kvs fs1 = inr fs' →
    fs1 !! col = (if ignore col then fs !! col
                  else match keep val with Some w => Some w | None => fs !! col end) →
    (∀ j, j ≠ col → fs1 !! j = fs !! j) →
    fs' !! k =
      match <[col:=val]> (list_to_map kvs : gmap string value) !! k with
      | Some v =>
          if ignore k then fs !! k
          else match keep v with Some w => Some w | None => fs !! k end
      | None => fs !! k
      end) as Hstep.
  { intros fs1 Hfs1 Hat Hoff. rewrite (IH fs1 Hnd Hfs1).
    rewrite lookup_insert. case_decide; subst.
    - by rewrite Hnone, Hat.
    - rewrite !Hoff by done. done. }
  destruct (ignore col) eqn:Hig.
  { apply (Hstep fs); done. }
  destruct val; simpl in *;
    try (apply (Hstep fs); done).
  - eapply Hstep; [done| by rewrite lookup_insert_eq |].
    intros j Hj. by rewrite lookup_insert_ne.
  - destruct (strconv.ParseInt s) as [integer [err|]]; [done|].
    eapply Hstep; [done| by rewrite lookup_insert_eq |].
    intros j Hj. by rewrite lookup_insert_ne.
Qed.

Lemma statsFields_inl kvs (fs : gmap string value) e :
  statsFields kvs fs = inl e →
  ∃ k s, (k, VString s) ∈ kvs ∧ ignore k = false
         ∧ (strconv.ParseInt s).2 = Some e.
Proof.
  revert fs. induction kvs as [|[col val] kvs IH]; intros fs Hrun; [done|].
  simpl in Hrun.
  assert (∀ fs1 : gmap string value, statsFields kvs fs1 = inl e →
    ∃ k s, (k, VString s) ∈ (col, val) :: kvs ∧ ignore k = false
           ∧ (strconv.ParseInt s).2 = Some e) as Hrest.
  { intros fs1 H1. destruct (IH _ H1) as (k & s & Hin & Hig & Hp).
    exists k, s. by rewrite elem_of_cons; auto. }
  destruct (ignore col) eqn:Hig; [by eapply Hrest|].
  destruct val; try (by eapply Hrest).
  destruct (strconv.ParseInt s) as [integer [err|]] eqn:Hp; [|by eapply Hrest].
  inversion Hrun; subst. exists col, s.
  rewrite elem_of_cons, Hp. auto.
Qed.

Lemma statsFields_bad kvs (fs : gmap string value) k s :
  (k, VString s) ∈ kvs → ignore k = false →
  (strconv.ParseInt s).2 ≠ None →
  ∃ e, statsFields kvs fs = inl e.
Proof.
  intros Hin Hig Hbad. revert fs.
  induction kvs as [|[col val] kvs IH]; intros fs.
  { by apply elem_of_nil in Hin. }
  apply elem_of_cons in Hin as [[= <- <-]|Hin]; simpl.
  - rewrite Hig. destruct (strconv.ParseInt s) as [integer [err|]]; [eauto|done].
  - destruct (ignore col); [by apply IH|].
    destruct val; try (by apply IH).
    destruct (strconv.ParseInt s0) as [integer [err|]]; [eauto|by apply IH].
Qed.

(** Whatever the order of the visit, a run that ends without an error
    leaves the same field set. *)
Lemma statsFields_range (ro : RangeOrder) i (m fs : gmap string value) :
  statsFields (range ro Stats i m) ∅ = inr fs → fs = statsSpec m.
Proof.
  intros Hrun. apply map_eq. intros k.
  rewrite (statsFields_lookup _ _ _ k (range_NoDup ro Stats i m) Hrun).
  rewrite range_to_map. unfold statsSpec.
  rewrite lookup_omap, map_lookup_filter, lookup_empty.
  destruct (m !! k) as [v|]; simpl; [|done].
  destruct (ignore k) eqn:Hig.
  - by rewrite option_guard_False by (simpl; congruence).
  - rewrite option_guard_True by done. simpl. by destruct (keep v).
Qed.

Lemma statsFields_range_inl (ro : RangeOrder) i (m : gmap string value) :
  badRow m ↔ ∃ e, statsFields (range ro Stats i m) ∅ = inl e.
Proof.
  split.
  - intros (k & s & Hk & Hig & Hbad).
    eapply statsFields_bad; [by apply elem_of_range| |]; done.
  - intros [e He]. apply statsFields_inl in He as (k & s & Hin & Hig & Hp).
    exists k, s. apply elem_of_range in Hin. by rewrite Hp.
Qed.

(** ** accRow *)

Lemma accRow_eq (p : Odyssey) row columns :
  accRow p row columns =
    match scanRow row columns with
    | inl err => Err err
    | inr m =>
        match m !! "database" with
        | Some (VString s) =>
            match SanitizedAddress p with
            | inl err => Err err
            | inr a => Ok (<["server" := a]> (<["db" := s]> ∅), m)
            end
        | Some x => Panic (InterfaceConversion x)
        | None =>
            match SanitizedAddress p with
            | inl err => Err err
            | inr a => Ok (<["server" := a]> (<["db" := "postgres"]> ∅), m)
            end
        end
    end.
Proof.
  unfold accRow, dbnameOf. destruct (scanRow row columns) as [err|m]; [done|].
  destruct (m !! "database") as [[]|]; done.
Qed.

Lemma accRow_Ok (p : Odyssey) row columns tags m :
  accRow p row columns = Ok (tags, m) →
  scanRow row columns = inr m ∧
  ∃ a db, SanitizedAddress p = inr a ∧ dbnameOf m = Ok db
          ∧ tags = <["server" := a]> (<["db" := db]> ∅).
Proof.
  unfold accRow. destruct (scanRow row columns) as [err|m']; [done|].
  destruct (dbnameOf m') as [db|e|x] eqn:Hdb; try done.
  destruct (SanitizedAddress p) as [err|a]; [done|].
  intros [= <- <-]. eauto 10.
Qed.

Lemma accRow_Panic (p : Odyssey) row columns x :
  accRow p row columns = Panic x ↔
  ∃ m, scanRow row columns = inr m ∧ dbnameOf m = Panic x.
Proof.
  unfold accRow. destruct (scanRow row columns) as [err|m].
  { split; [done|]. by intros (? & ? & ?). }
  destruct (dbnameOf m) as [db|e|y] eqn:Hdb.
  - destruct (SanitizedAddress p); split; try done;
      intros (? & [= <-] & ?); congruence.
  - split; [done|]. intros (? & [= <-] & ?); congruence.
  - split; [intros [= <-]; eauto|]. intros (? & [= <-] & ?); congruence.
Qed.

Lemma dbnameOf_Panic m x :
  dbnameOf m = Panic (InterfaceConversion x) ↔
  m !! "database" = Some x ∧ ∀ s, x ≠ VString s.
Proof.
  unfold dbnameOf. destruct (m !! "database") as [[]|]; split;
    try done; try (intros [= <-]; split; done); try (by intros [[= <-] _]);
    try (by intros [[=] _]).
  intros [[= <-] H]. by destruct (H s).
Qed.

Lemma dbnameOf_not_Err m e : dbnameOf m ≠ Err e.
Proof. unfold dbnameOf. by destruct (m !! "database") as [[]|]. Qed.

(** ** The loop bodies, unfolded *)

Lemma statsRow_eq ro p columns i row acc :
  statsRow ro p columns i row acc =
    match accRow p row columns with
    | Ok (tags, m) =>
        match statsFields (range ro Stats i m) ∅ with
        | inl err => (acc, Err err)
        | inr fs =>
            (acc ++ [{| measurement := "odyssey"; fields := fs; tags := tags |}],
             Ok tt)
        end
    | Err err => (acc, Err err)
    | Panic x => (acc, Panic x)
    end.
Proof.
  unfold statsRow, bind, lift, try, emit, AddFields.
  destruct (accRow p row columns) as [[tags m]|err|x]; try done.
  by destruct (statsFields _ _).
Qed.

Lemma poolRow_eq ro p columns i row acc :
  poolRow ro p columns i row acc =
    match accRow p row columns with
    | Ok (tags, m) =>
        (acc ++ [{| measurement := "odyssey_pools";
                    fields := filter (λ kv, ignore kv.1 = false) m;
                    tags := tagFrom "pool_mode" m (tagFrom "user" m tags) |}],
         Ok tt)
    | Err err => (acc, Err err)
    | Panic x => (acc, Panic x)
    end.
Proof.
  unfold poolRow, bind, lift, emit, AddFields.
  destruct (accRow p row columns) as [[tags m]|err|x]; try done.
  by rewrite poolFields_range.
Qed.

(** ** for rows.Next() *)

Lemma forRows_fail body i row rows acc acc' (r : result unit) :
  body i row acc = (acc', r) → is_ok r = false →
  forRows body i (row :: rows) acc = (acc', r).
Proof.
  intros Hb Hr. simpl. unfold bind. rewrite Hb. by destruct r.
Qed.

Lemma forRows_next body i row rows acc acc' :
  body i row acc = (acc', Ok tt) →
  forRows body i (row :: rows) acc = forRows body (S i) rows acc'.
Proof. intros Hb. simpl. unfold bind. by rewrite Hb. Qed.

Lemma forRows_app body i pre post acc :
  forRows body i (pre ++ post) acc =
    match forRows body i pre acc with
    | (acc', Ok _) => forRows body (i + length pre) post acc'
    | other => other
    end.
Proof.
  revert i acc. induction pre as [|row pre IH]; intros i acc; simpl.
  { by rewrite Nat.add_0_r. }
  unfold bind. destruct (body i row acc) as [acc1 [[]|e|x]]; try done.
  rewrite IH. by replace (S i + length pre)%nat with (i + S (length pre))%nat by lia.
Qed.

(** A loop whose body logs at most one metric, all of them satisfying [P],
    logs at most one metric per row. *)
Lemma forRows_log (P : Metric → Prop) (body : nat → scanner → Run unit) :
  (∀ i row acc acc' r, body i row acc = (acc', r) →
     ∃ ms, acc' = acc ++ ms ∧ (length ms ≤ 1)%nat ∧ Forall P ms) →
  ∀ rows i acc acc' r, forRows body i rows acc = (acc', r) →
     ∃ ms, acc' = acc ++ ms ∧ (length ms ≤ length rows)%nat ∧ Forall P ms.
Proof.
  intros Hbody rows. induction rows as [|row rows IH]; intros i acc acc' r Hrun.
  { injection Hrun as <- <-. exists []. by rewrite app_nil_r. }
  simpl in Hrun. unfold bind in Hrun.
  destruct (body i row acc) as [acc1 r1] eqn:Hb.
  destruct (Hbody _ _ _ _ _ Hb) as (ms1 & -> & Hlen1 & HP1).
  assert (∀ r', (acc ++ ms1, r') = (acc', r) →
    ∃ ms, acc' = acc ++ ms ∧ (length ms ≤ length (row :: rows))%nat ∧ Forall P ms)
    as Hstop.
  { intros r' [= <- <-]. exists ms1. simpl. split_and!; [done|lia|done]. }
  destruct r1 as [[]|e|x]; [|by eapply Hstop..].
  destruct (IH _ _ _ _ Hrun) as (ms2 & -> & Hlen2 & HP2).
  exists (ms1 ++ ms2). rewrite length_app, Forall_app, app_assoc. simpl.
  split_and!; [done|lia|done|done].
Qed.

(** ** Gather, unfolded *)

Lemma Gather_eq ro p acc :
  Gather ro p acc =
    match Query p "SHOW STATS" with
    | inl err => (acc, Err err)
    | inr rows =>
      match Columns rows with
      | inl err => (acc, Err err)
      | inr columns =>
        match forRows (statsRow ro p columns) 0 (rowList rows) acc with
        | (acc1, Ok _) =>
          match rowsErr rows with
          | Some err => (acc1, Err err)
          | None =>
            match Query p "SHOW POOLS" with
            | inl err => (acc1, Err err)
            | inr poolRows =>
              match Columns poolRows with
              | inl err => (acc1, Err err)
              | inr pcolumns =>
                match forRows (poolRow ro p pcolumns) 0 (rowList poolRows) acc1 with
                | (acc2, Ok _) =>
                  match rowsErr poolRows with
                  | Some err => (acc2, Err err)
                  | None => (acc2, Ok tt)
                  end
                | other => other
                end
              end
            end
          end
        | other => other
        end
      end
    end.
Proof.
  unfold Gather, bind, try, checkErr.
  destruct (Query p "SHOW STATS") as [err|rows]; [done|].
  destruct (Columns rows) as [err|columns]; [done|].
  destruct (forRows _ 0 (rowList rows) acc) as [acc1 [[]|e|x]]; try done.
  destruct (rowsErr rows); [done|].
  destruct (Query p "SHOW POOLS") as [err|poolRows]; [done|].
  destruct (Columns poolRows) as [err|pcolumns]; [done|].
  by destruct (forRows _ 0 (rowList poolRows) acc1) as [acc2 [[]|e|x]].
Qed.

Lemma proxy_stats stats pools address :
  Query (proxy stats pools address) "SHOW STATS" = inr stats.
Proof. reflexivity. Qed.

Lemma proxy_pools stats pools address :
  Query (proxy stats pools address) "SHOW POOLS" = inr pools.
Proof. reflexivity. Qed.

(** ** Scanning a well-formed row

    When the column names are distinct and the row has one value per
    column, a successful scan leaves exactly one entry per column, holding
    that column's value. *)

Lemma newColumnMap_lookup columns k :
  newColumnMap columns !! k =
    if decide (k ∈ columns) then Some VNil else None.
Proof.
  unfold newColumnMap.
  assert (∀ m : gmap string value,
    foldl (λ columnMap column, <[column := VNil]> columnMap) m columns !! k =
      if decide (k ∈ columns) then Some VNil else m !! k) as Hgen.
  { induction columns as [|c columns IH]; intros m; cbn [foldl].
    - by rewrite decide_False by apply not_elem_of_nil.
    - rewrite IH. destruct (decide (k ∈ columns)) as [Hin|Hnin].
      + by rewrite decide_True by (by right).
      + destruct (decide (k = c)) as [->|Hne].
        * rewrite lookup_insert_eq. by rewrite decide_True by left.
        * rewrite lookup_insert_ne by done.
          by rewrite decide_False by (rewrite elem_of_cons; tauto). }
  by rewrite Hgen, lookup_empty.
Qed.

Lemma newColumnMap_size columns :
  NoDup columns → size (newColumnMap columns) = length columns.
Proof.
  intros Hnd. rewrite <- size_dom.
  assert (dom (newColumnMap columns) = (list_to_set columns : gset string)) as ->.
  { apply set_eq. intros k.
    rewrite elem_of_dom, newColumnMap_lookup, elem_of_list_to_set.
    case_decide; split; try done; try (by intros []). }
  by apply size_list_to_set.
Qed.

Lemma store_lookup dests vals (m : gmap string value) k :
  NoDup dests →
  store dests vals m !! k =
    match (list_to_map (zip dests vals) : gmap string value) !! k with
    | Some v => Some v
    | None => m !! k
    end.
Proof.
  unfold store. revert vals m.
  induction dests as [|d dests IH]; intros vals m Hnd; [done|].
  apply NoDup_cons in Hnd as [Hd Hnd].
  destruct vals as [|v vals]; [done|]. simpl.
  rewrite IH by done.
  assert ((list_to_map (zip dests vals) : gmap string value) !! d = None) as Hnone.
  { apply not_elem_of_list_to_map_1. intros Hin. apply Hd.
    apply list_elem_of_fmap in Hin as ([d' v'] & -> & Hin).
    by apply elem_of_zip_l in Hin. }
  rewrite lookup_insert. case_decide; subst.
  - by rewrite Hnone, lookup_insert_eq.
  - rewrite lookup_insert_ne by done. done.
Qed.

Lemma scanRow_sqlRow columns vals :
  NoDup columns → length columns = length vals →
  scanRow (sqlRow vals) columns = inr (list_to_map (zip columns vals)).
Proof.
  intros Hnd Hlen. unfold scanRow, newColumnVars.
  rewrite newColumnMap_size, firstn_all by done. simpl.
  rewrite decide_True by done. f_equal.
  apply map_eq. intros k. rewrite store_lookup by done.
  destruct (list_to_map (zip columns vals) !! k) eqn:Hk; [done|].
  rewrite newColumnMap_lookup. case_decide as Hin; [|done].
  apply not_elem_of_list_to_map in Hk. destruct Hk.
  by rewrite fst_zip by lia.
Qed.

(** A row with fewer or more values than columns fails to scan: the driver
    counts the destinations. *)
Lemma scanRow_sqlRow_mismatch columns vals :
  NoDup columns → length columns ≠ length vals →
  ∃ err, scanRow (sqlRow vals) columns = inl err.
Proof.
  intros Hnd Hlen. unfold scanRow, newColumnVars.
  rewrite newColumnMap_size, firstn_all by done. simpl.
  rewrite decide_False by done. eauto.
Qed.

(** ** strconv.ParseInt accepts decimal numerals in the int64 range *)

Lemma parseDigits_cons ch rest n :
  strconv.parseDigits (String ch rest) n =
    let c := strconv.byte_of ch in
    if (48 <=? c) && (c <=? 57) then
      if 1844674407370955162 <=? n then (18446744073709551615, Some ErrRange)
      else
        let n' := (n * 10) mod 2 ^ 64 in
        let n1 := (n' + (c - 48)) mod 2 ^ 64 in
        if (n1 <? n') || (18446744073709551615 <? n1)
        then (18446744073709551615, Some ErrRange)
        else strconv.parseDigits rest n1
    else (0, Some ErrSyntax).
Proof.
  cbn [strconv.parseDigits]. cbv zeta.
  change (strconv.maxUint64 / 10 + 1) with 1844674407370955162.
  change (strconv.wrap64 (strconv.wrap64 (1 ≪ 64) - 1))
    with 18446744073709551615.
  unfold strconv.wrap64.
  destruct ((48 <=? strconv.byte_of ch) && (strconv.byte_of ch <=? 57)) eqn:Hd.
  - apply andb_true_iff in Hd as [H1%Z.leb_le H2%Z.leb_le].
    rewrite (proj2 (Z.leb_gt 10 (strconv.byte_of ch - 48))) by lia. done.
  - destruct ((97 <=? strconv.lower (strconv.byte_of ch))
              && (strconv.lower (strconv.byte_of ch) <=? 122)) eqn:Hl; [|done].
    apply andb_true_iff in Hl as [H1%Z.leb_le H2%Z.leb_le].
    rewrite (proj2 (Z.leb_le 10 (strconv.lower (strconv.byte_of ch) - 97 + 10)))
      by lia. done.
Qed.

Lemma parseDigits_sound s n u :
  0 ≤ n →
  strconv.parseDigits s n = (u, None) →
  decimal s n = Some u ∧ n ≤ u < 2 ^ 64 ∨ (s = EmptyString ∧ u = n).
Proof.
  revert n. induction s as [|ch rest IH]; intros n Hn Hrun.
  { right. simpl in Hrun. injection Hrun as Hnu. by subst. }
  left. rewrite parseDigits_cons in Hrun. cbv zeta in Hrun. cbn [decimal]. cbv zeta.
  change (2 ^ 64) with 18446744073709551616 in *.
  destruct ((48 <=? strconv.byte_of ch) && (strconv.byte_of ch <=? 57)) eqn:Hd;
    [|done].
  apply andb_true_iff in Hd as [H1%Z.leb_le H2%Z.leb_le].
  destruct (1844674407370955162 <=? n) eqn:Hcut; [done|].
  apply Z.leb_gt in Hcut.
  rewrite (Z.mod_small (n * 10)) in Hrun by lia.
  set (d := strconv.byte_of ch - 48) in *.
  assert (0 ≤ d ≤ 9) as Hdig by (unfold d; lia). clearbody d.
  destruct (((n * 10 + d) mod 18446744073709551616 <? n * 10)
            || (18446744073709551615 <? (n * 10 + d) mod 18446744073709551616))
    eqn:Hov; [done|].
  apply orb_false_iff in Hov as [Hlt%Z.ltb_ge Hmax%Z.ltb_ge].
  assert (n * 10 + d < 18446744073709551616) as Hfit.
  { destruct (Z_lt_dec (n * 10 + d) 18446744073709551616) as [|Hge]; [done|].
    exfalso. revert Hlt.
    replace (n * 10 + d)
      with ((n * 10 + d - 18446744073709551616) + 1 * 18446744073709551616)
      by lia.
    rewrite Z.mod_add by lia. rewrite Z.mod_small by lia. lia. }
  rewrite Z.mod_small in Hrun by lia.
  destruct (IH (n * 10 + d) ltac:(lia) Hrun) as [[Hdec Hu]|[-> ->]].
  - split; [done|lia].
  - split; [done|lia].
Qed.

Lemma decimal_ge s n u : 0 ≤ n → decimal s n = Some u → n ≤ u.
Proof.
  revert n. induction s as [|ch rest IH]; intros n Hn; simpl.
  { intros [= <-]. lia. }
  destruct ((48 <=? strconv.byte_of ch) && (strconv.byte_of ch <=? 57)) eqn:Hd;
    [|done].
  apply andb_true_iff in Hd as [H1%Z.leb_le H2%Z.leb_le].
  intros Hrest. apply IH in Hrest; lia.
Qed.

Lemma parseDigits_complete s n u :
  0 ≤ n → decimal s n = Some u → u < 2 ^ 64 →
  strconv.parseDigits s n = (u, None).
Proof.
  revert n. induction s as [|ch rest IH]; intros n Hn Hdec Hu.
  { simpl in *. congruence. }
  rewrite parseDigits_cons. cbv zeta. cbn [decimal] in Hdec. cbv zeta in Hdec.
  change (2 ^ 64) with 18446744073709551616 in *.
  destruct ((48 <=? strconv.byte_of ch) && (strconv.byte_of ch <=? 57)) eqn:Hd;
    [|done].
  apply andb_true_iff in Hd as [H1%Z.leb_le H2%Z.leb_le].
  set (d := strconv.byte_of ch - 48) in *.
  assert (0 ≤ d ≤ 9) as Hdig by (unfold d; lia). clearbody d.
  pose proof (decimal_ge rest (n * 10 + d) u ltac:(lia) Hdec) as Hge.
  rewrite (proj2 (Z.leb_gt 1844674407370955162 n)) by lia.
  rewrite (Z.mod_small (n * 10)) by lia.
  rewrite (Z.mod_small (n * 10 + d)) by lia.
  rewrite (proj2 (Z.ltb_ge (n * 10 + d) (n * 10))) by lia.
  rewrite (proj2 (Z.ltb_ge 18446744073709551615 (n * 10 + d))) by lia.
  simpl. apply IH; [lia|done|done].
Qed.

Lemma parseDigits_range_error s n u :
  strconv.parseDigits s n = (u, Some ErrRange) → u = 18446744073709551615.
Proof.
  revert n. induction s as [|ch rest IH]; intros n; [done|].
  rewrite parseDigits_cons. cbv zeta.
  repeat case_match; try congruence; eauto.
Qed.

Lemma ParseUint_sound body un :
  strconv.ParseUint body = (un, None) →
  body ≠ EmptyString ∧ decimal body 0 = Some un ∧ 0 ≤ un < 2 ^ 64.
Proof.
  destruct body as [|ch rest]; [done|]. unfold strconv.ParseUint.
  intros Hrun. apply parseDigits_sound in Hrun as [[Hdec Hu]|[[=] _]]; [|lia].
  done.
Qed.

(** When [ParseInt] returns a nil error, its argument is an optional sign
    followed by one or more decimal digits, and the result is the number
    they denote, which fits in an [int64]. *)
Lemma ParseInt_sound s i :
  strconv.ParseInt s = (i, None) →
  - 2 ^ 63 ≤ i < 2 ^ 63 ∧
  ∃ body, body ≠ EmptyString ∧
    ((s = body ∨ s = String "+" body) ∧ decimal body 0 = Some i
     ∨ s = String "-" body ∧ decimal body 0 = Some (- i)).
Proof.
  destruct s as [|c0 rest]; [done|]. unfold strconv.ParseInt.
  change (2 ^ 63) with 9223372036854775808.
  assert (∀ (neg : bool) body s0,
    (let '(un, err) := strconv.ParseUint body in
     match err with
     | Some ErrSyntax => (0, Some (NumError "ParseInt" s0 ErrSyntax))
     | _ =>
         if negb neg && (9223372036854775808 <=? un)
         then (9223372036854775808 - 1, Some (NumError "ParseInt" s0 ErrRange))
         else if neg && (9223372036854775808 <? un)
         then (- 9223372036854775808, Some (NumError "ParseInt" s0 ErrRange))
         else ((if neg then - un else un), None)
     end) = (i, None) →
    - 9223372036854775808 ≤ i < 9223372036854775808 ∧
    body ≠ EmptyString ∧
    decimal body 0 = Some (if neg then - i else i)) as Hcore.
  { intros neg body s0.
    destruct (strconv.ParseUint body) as [un [[]|]] eqn:HU; [done| |].
    - assert (un = 18446744073709551615) as ->.
      { destruct body; [done|]. by eapply parseDigits_range_error. }
      by destruct neg.
    - apply ParseUint_sound in HU as (Hne & Hdec & Hun).
      destruct neg; simpl.
      + destruct (9223372036854775808 <? un) eqn:Hc; [done|].
        apply Z.ltb_ge in Hc. intros [= <-].
        rewrite Z.opp_involutive. split_and!; [lia|lia|done|done].
      + destruct (9223372036854775808 <=? un) eqn:Hc; [done|].
        apply Z.leb_gt in Hc. intros [= <-]. split_and!; [lia|lia|done|done]. }
  destruct (Ascii.eqb c0 "+") eqn:Hplus.
  { apply Ascii.eqb_eq in Hplus as ->. intros H.
    apply Hcore in H as (Hr & Hne & Hdec). split; [done|].
    exists rest. auto. }
  destruct (Ascii.eqb c0 "-") eqn:Hminus.
  { apply Ascii.eqb_eq in Hminus as ->. intros H.
    apply Hcore in H as (Hr & Hne & Hdec). split; [done|].
    exists rest. auto. }
  intros H. apply (Hcore false) in H as (Hr & Hne & Hdec). split; [done|].
  exists (String c0 rest). auto.
Qed.

Lemma ParseInt_range s i :
  strconv.ParseInt s = (i, None) → - 2 ^ 63 ≤ i < 2 ^ 63.
Proof. intros H. by apply ParseInt_sound in H as [? _]. Qed.

(** Conversely every decimal numeral in the [int64] range is accepted. *)
Lemma ParseInt_complete body v :
  body ≠ EmptyString → decimal body 0 = Some v →
  (v < 2 ^ 63 → strconv.ParseInt body = (v, None)
                ∧ strconv.ParseInt (String "+" body) = (v, None)) ∧
  (v ≤ 2 ^ 63 → strconv.ParseInt (String "-" body) = (- v, None)).
Proof.
  change (2 ^ 63) with 9223372036854775808.
  intros Hne Hdec.
  pose proof (decimal_ge body 0 v ltac:(lia) Hdec) as Hv.
  assert (v < 2 ^ 64 → strconv.ParseUint body = (v, None)) as HU.
  { intros Hlt. destruct body as [|ch rest]; [done|].
    by apply parseDigits_complete. }
  change (2 ^ 64) with 18446744073709551616 in HU.
  assert (∃ c0 rest, body = String c0 rest ∧ Ascii.eqb c0 "+" = false
                     ∧ Ascii.eqb c0 "-" = false) as (c0 & rest & -> & Hp & Hm).
  { destruct body as [|c0 rest]; [done|]. exists c0, rest.
    simpl in Hdec.
    destruct ((48 <=? strconv.byte_of c0) && (strconv.byte_of c0 <=? 57)) eqn:Hd;
      [|done].
    apply andb_true_iff in Hd as [H1%Z.leb_le H2%Z.leb_le].
    split_and!; [done| |]; apply Ascii.eqb_neq; intros ->;
      vm_compute in H1; by apply H1. }
  split.
  - intros Hlt. split; unfold strconv.ParseInt.
    + rewrite Hp, Hm, HU by lia. cbv beta iota zeta.
      change (2 ^ 63) with 9223372036854775808.
      by rewrite (proj2 (Z.leb_gt 9223372036854775808 v)) by lia.
    + rewrite Ascii.eqb_refl, HU by lia. cbv beta iota zeta.
      change (2 ^ 63) with 9223372036854775808.
      by rewrite (proj2 (Z.leb_gt 9223372036854775808 v)) by lia.
  - intros Hle. unfold strconv.ParseInt.
    change (Ascii.eqb "-" "+") with false. rewrite Ascii.eqb_refl, HU by lia.
    cbv beta iota zeta. change (2 ^ 63) with 9223372036854775808.
    by rewrite (proj2 (Z.ltb_ge 9223372036854775808 v)) by lia.
Qed.

(** * The claims *)

(** ** The "db" tag *)

(** Where [accRow] returns, the "db" tag is the string of the "database"
    column, or "postgres" when the row has no such column. *)
Lemma accRow_db (p : Odyssey) row columns tags m :
  accRow p row columns = Ok (tags, m) →
  (∀ s, m !! "database" = Some (VString s) → tags !! "db" = Some s) ∧
  (m !! "database" = None → tags !! "db" = Some "postgres").
Proof.
  rewrite accRow_eq. destruct (scanRow row columns) as [err|m']; [done|].
  destruct (m' !! "database") as [v|] eqn:Hdb;
    [destruct v; try done|];
    destruct (SanitizedAddress p); try done; intros [= <- <-];
    rewrite Hdb; split; try done.
  intros s' [= <-]. done.
Qed.

(** C1, at the input where the code departs from it: a row whose
    "database" column is SQL NULL.  The claim puts "postgres" in the "db"
    tag; [accRow] panics in the unchecked type assertion, and so does the
    collection cycle, before any metric is logged. *)
Theorem accRow_null_database (ro : RangeOrder) (address : error + string)
    (acc : Accumulator) :
  let columns := ["database"; "total_xact_count"] in
  let vals := [VNil; VInt64 42] in
  let p := proxy (rowsOf columns [vals] None) noRows address in
  scanRow (sqlRow vals) columns
    = inr (<["database" := VNil]> (<["total_xact_count" := VInt64 42]> ∅)) ∧
  accRow p (sqlRow vals) columns = Panic (InterfaceConversion VNil) ∧
  Gather ro p acc = (acc, Panic (InterfaceConversion VNil)).
Proof.
  intros columns vals p.
  assert (scanRow (sqlRow vals) columns
    = inr (<["database" := VNil]> (<["total_xact_count" := VInt64 42]> ∅)))
    as Hscan by (vm_compute; reflexivity).
  assert (accRow p (sqlRow vals) columns = Panic (InterfaceConversion VNil))
    as Hrow by (rewrite accRow_eq, Hscan; reflexivity).
  split; [exact Hscan|]. split; [exact Hrow|].
  rewrite Gather_eq. unfold p at 1. rewrite proxy_stats.
  cbn [Columns rowsOf rowList fmap list_fmap forRows].
  unfold bind. by rewrite statsRow_eq, Hrow.
Qed.

(** ** A decidable form of [badRow] *)

Lemma badRowb_spec m : badRowb m = true ↔ badRow m.
Proof.
  unfold badRowb, badRow. rewrite existsb_exists. split.
  - intros ([k v] & Hin & Hbad). apply list_elem_of_In, elem_of_map_to_list in Hin.
    unfold badEntry in Hbad. simpl in Hbad.
    apply andb_true_iff in Hbad as [Hig Hv]. apply negb_true_iff in Hig.
    destruct v; try done. exists k, s. split_and!; [done..|].
    by destruct (strconv.ParseInt s).2.
  - intros (k & s & Hk & Hig & Hp). exists (k, VString s). split.
    + by apply list_elem_of_In, elem_of_map_to_list.
    + unfold badEntry. simpl. rewrite Hig. simpl.
      by destruct (strconv.ParseInt s).2.
Qed.

Lemma badRowb_false m : badRowb m = false ↔ ¬ badRow m.
Proof. rewrite <- badRowb_spec. by destruct (badRowb m). Qed.

Lemma statsFields_good (ro : RangeOrder) i (m : gmap string value) :
  ¬ badRow m → statsFields (range ro Stats i m) ∅ = inr (statsSpec m).
Proof.
  intros Hgood. destruct (statsFields _ _) as [e|fs] eqn:Hrun.
  - destruct Hgood. apply (statsFields_range_inl ro i). eauto.
  - f_equal. by eapply statsFields_range.
Qed.

(** ** A "database" column that is not a string *)

(** C10: when the scanned "database" value is of any dynamic type other
    than string (nil for SQL NULL, an integer, ...), the unchecked
    assertion in [accRow] panics: the call neither returns an error nor
    falls back to "postgres", and in both passes the row logs nothing. *)
Theorem accRow_database_not_string (ro : RangeOrder) (p : Odyssey)
    (columns : list string) (i : nat) (row : scanner) (acc : Accumulator)
    (m : gmap string value) (v : value) :
  scanRow row columns = inr m →
  m !! "database" = Some v →
  (∀ s, v ≠ VString s) →
  accRow p row columns = Panic (InterfaceConversion v) ∧
  statsRow ro p columns i row acc = (acc, Panic (InterfaceConversion v)) ∧
  poolRow ro p columns i row acc = (acc, Panic (InterfaceConversion v)).
Proof.
  intros Hscan Hdb Hv.
  assert (accRow p row columns = Panic (InterfaceConversion v)) as Hrow.
  { apply accRow_Panic. exists m. split; [done|]. by apply dbnameOf_Panic. }
  by rewrite statsRow_eq, poolRow_eq, Hrow.
Qed.

Lemma accRow_database_not_string_witness :
  let p := proxy noRows noRows (inr "host=localhost") in
  let columns := ["user"; "database"] in
  let row := sqlRow [VString "bob"; VInt64 7] in
  scanRow row columns
    = inr (<["user" := VString "bob"]> (<["database" := VInt64 7]> ∅)) ∧
  accRow p row columns = Panic (InterfaceConversion (VInt64 7)) ∧
  statsRow orderFwd p columns 0 row [] = ([], Panic (InterfaceConversion (VInt64 7))) ∧
  poolRow orderRev p columns 0 row [] = ([], Panic (InterfaceConversion (VInt64 7))).
Proof.
  intros p columns row.
  assert (scanRow row columns
    = inr (<["user" := VString "bob"]> (<["database" := VInt64 7]> ∅)))
    as Hscan by (vm_compute; reflexivity).
  split; [exact Hscan|].
  pose proof (accRow_database_not_string orderFwd p columns 0 row [] _
                (VInt64 7) Hscan) as Hfwd.
  pose proof (accRow_database_not_string orderRev p columns 0 row [] _
                (VInt64 7) Hscan) as Hrev.
  destruct Hfwd as (H1 & H2 & _);
    [vm_compute; reflexivity | intros s; discriminate |].
  destruct Hrev as (_ & _ & H3);
    [vm_compute; reflexivity | intros s; discriminate |].
  split; [exact H1|]. split; [exact H2|exact H3].
Defined.

(** ** Statistics pass: the field set *)

(** C2: in a statistics row that [accRow] has scanned, take the columns
    outside the ignore set.  If every string among them parses, the row
    logs one "odyssey" metric in which an [int64] value is copied
    unchanged, a string is replaced by the [int64] that [ParseInt] reads
    from it, and a value of any other type is absent.  If some string does
    not parse, the row returns the parse error of such a column, logs
    nothing, and the loop over the result set ends there with that
    error. *)
Theorem statsRow_coercion (ro : RangeOrder) (p : Odyssey)
    (columns : list string) (i : nat) (row : scanner) (acc : Accumulator)
    (tags : gmap string string) (m : gmap string value) :
  accRow p row columns = Ok (tags, m) →
  (¬ badRow m →
     ∃ fs,
       statsRow ro p columns i row acc =
         (acc ++ [{| measurement := "odyssey"; fields := fs; tags := tags |}],
          Ok tt) ∧
       ∀ col v, m !! col = Some v → ignore col = false →
         match v with
         | VInt64 n => fs !! col = Some (VInt64 n)
         | VString s =>
             ∃ n, strconv.ParseInt s = (n, None) ∧ - 2 ^ 63 ≤ n < 2 ^ 63
                  ∧ fs !! col = Some (VInt64 n)
         | _ => fs !! col = None
         end) ∧
  (badRow m →
     ∃ e,
       statsRow ro p columns i row acc = (acc, Err e) ∧
       (∃ col s, m !! col = Some (VString s) ∧ ignore col = false
                 ∧ (strconv.ParseInt s).2 = Some e) ∧
       ∀ rows,
         forRows (statsRow ro p columns) i (row :: rows) acc = (acc, Err e)).
Proof.
  intros Hrow. split.
  - intros Hgood. exists (statsSpec m). split.
    { by rewrite statsRow_eq, Hrow, statsFields_good. }
    intros col v Hcol Hig. unfold statsSpec.
    rewrite lookup_omap, map_lookup_filter, Hcol. simpl.
    rewrite option_guard_True by done. simpl.
    destruct v; try done. simpl.
    destruct (strconv.ParseInt s) as [n [e|]] eqn:Hp.
    + destruct Hgood. exists col, s. by rewrite Hp.
    + exists n. split_and!; try done; by apply (ParseInt_range s).
  - intros Hbad. apply (statsFields_range_inl ro i) in Hbad as [e He].
    assert (statsRow ro p columns i row acc = (acc, Err e)) as Hrun
      by by rewrite statsRow_eq, Hrow, He.
    exists e. split_and!; [done| |].
    + apply statsFields_inl in He as (col & s & Hin & Hig & Hp).
      exists col, s. by apply elem_of_range in Hin.
    + intros rows. by apply forRows_fail.
Qed.

Lemma statsRow_coercion_witness :
  let p := proxy noRows noRows (inr "host=localhost") in
  let columns :=
    ["database"; "total_requests"; "avg_req"; "ratio"; "total_received"] in
  let row :=
    sqlRow [VString "app"; VString "17"; VString "n/a"; VFloat64 0; VInt64 5] in
  let tags : gmap string string :=
    <["server" := "host=localhost"]> (<["db" := "app"]> ∅) in
  let m : gmap string value :=
    <["database" := VString "app"]> (<["total_requests" := VString "17"]>
    (<["avg_req" := VString "n/a"]> (<["ratio" := VFloat64 0]>
    (<["total_received" := VInt64 5]> ∅)))) in
  accRow p row columns = Ok (tags, m) ∧
  ∃ fs,
    statsRow orderRev p columns 0 row [] =
      ([{| measurement := "odyssey"; fields := fs; tags := tags |}], Ok tt) ∧
    fs !! "total_requests" = Some (VInt64 17) ∧
    fs !! "total_received" = Some (VInt64 5) ∧
    fs !! "ratio" = None.
Proof.
  intros p columns row tags m.
  assert (accRow p row columns = Ok (tags, m)) as Hrow
    by (vm_compute; reflexivity).
  split; [exact Hrow|].
  destruct (statsRow_coercion orderRev p columns 0 row [] tags m Hrow)
    as [Hgood _].
  destruct Hgood as (fs & Hrun & Hall).
  { apply badRowb_false. vm_compute. reflexivity. }
  exists fs. split; [exact Hrun|]. split; [|split].
  - destruct (Hall "total_requests" (VString "17")) as (n & Hn & _ & Hfs);
      [vm_compute; reflexivity | vm_compute; reflexivity |].
    vm_compute in Hn. injection Hn as <-. exact Hfs.
  - apply (Hall "total_received" (VInt64 5)); vm_compute; reflexivity.
  - apply (Hall "ratio" (VFloat64 0)); vm_compute; reflexivity.
Defined.

(** C4: the statistics row {user: "bob", database: "app", avg_req: "5",
    total_xact_count: 42}.  Whatever the order in which the map is
    ranged over and whatever the sanitized address [addr], the row logs
    exactly one metric, named "odyssey", with tags {server: addr, db:
    "app"} and fields {total_xact_count: 42}; so do the row on its own
    and a cycle whose statistics result set is that row. *)
Theorem statsRow_example (ro : RangeOrder) (q : string → error + Rows)
    (addr : string) (i : nat) (acc : Accumulator) :
  let columns := ["user"; "database"; "avg_req"; "total_xact_count"] in
  let vals := [VString "bob"; VString "app"; VString "5"; VInt64 42] in
  let M := {| measurement := "odyssey";
              fields := {[ "total_xact_count" := VInt64 42 ]};
              tags := <["server" := addr]> (<["db" := "app"]> ∅) |} in
  statsRow ro {| Query := q; SanitizedAddress := inr addr |} columns i
           (sqlRow vals) acc = (acc ++ [M], Ok tt) ∧
  Gather ro (proxy (rowsOf columns [vals] None) noRows (inr addr)) acc
    = (acc ++ [M], Ok tt) ∧
  fields M !! "user" = None ∧ fields M !! "database" = None ∧
  fields M !! "avg_req" = None ∧
  tags M !! "user" = None ∧ tags M !! "database" = None ∧
  tags M !! "avg_req" = None.
Proof.
  intros columns vals M.
  set (m := list_to_map (zip columns vals) : gmap string value).
  assert (scanRow (sqlRow vals) columns = inr m) as Hscan.
  { apply scanRow_sqlRow; [|reflexivity].
    apply (bool_decide_unpack (NoDup columns)). vm_compute. exact I. }
  assert (∀ p j, SanitizedAddress p = inr addr →
    statsRow ro p columns j (sqlRow vals) acc = (acc ++ [M], Ok tt)) as Hrow.
  { intros p j Hp. rewrite statsRow_eq, accRow_eq, Hscan.
    assert (m !! "database" = Some (VString "app")) as ->
      by (vm_compute; reflexivity).
    rewrite Hp.
    rewrite statsFields_good
      by (apply badRowb_false; vm_compute; reflexivity).
    replace (statsSpec m) with ({[ "total_xact_count" := VInt64 42 ]}
      : gmap string value) by (vm_compute; reflexivity).
    reflexivity. }
  split; [apply Hrow; reflexivity|]. split.
  - rewrite Gather_eq, proxy_stats, proxy_pools.
    cbn [Columns rowsOf rowList noRows rowsErr fmap list_fmap forRows].
    unfold bind, ret. rewrite Hrow; reflexivity.
  - unfold M. cbn [fields tags].
    rewrite !lookup_insert_ne, !lookup_singleton_ne, !lookup_empty by done.
    repeat split.
Qed.

(** ** Pool-status pass: tags and fields *)

Lemma tagFrom_lookup key (m : gmap string value) (ts : gmap string string) k :
  tagFrom key m ts !! k =
    if decide (k = key) then
      match m !! key with
      | Some (VString s) => if String.eqb s EmptyString then ts !! k else Some s
      | _ => ts !! k
      end
    else ts !! k.
Proof.
  unfold tagFrom. case_decide as Hk.
  - subst k. destruct (m !! key) as [[]|]; try done.
    destruct (String.eqb s EmptyString); [done|]. by rewrite lookup_insert_eq.
  - destruct (m !! key) as [[]|]; try done.
    destruct (String.eqb s EmptyString); [done|]. by rewrite lookup_insert_ne.
Qed.

Lemma tagFrom_spec key (m : gmap string value) (ts : gmap string string) s :
  ts !! key = None →
  tagFrom key m ts !! key = Some s ↔
  m !! key = Some (VString s) ∧ s ≠ EmptyString.
Proof.
  intros Hfresh. rewrite tagFrom_lookup, decide_True by done.
  destruct (m !! key) as [v|];
    [|rewrite Hfresh; split; [done|by intros [? _]]].
  destruct v; try (rewrite Hfresh; split; [done|by intros [[=] _]]).
  destruct (String.eqb s0 EmptyString) eqn:Hs.
  - apply String.eqb_eq in Hs as ->. rewrite Hfresh.
    split; [done|]. by intros [[= ->] H].
  - apply String.eqb_neq in Hs. split.
    + by intros [= ->].
    + by intros [[= ->] _].
Qed.

(** C5: a pool-status row that [accRow] has scanned logs one
    "odyssey_pools" metric; it carries the "user" tag exactly when the row
    has a "user" column holding a non-empty string, which is then the
    tag's value, and likewise for "pool_mode"; neither column is a field
    of the metric, tagged or not.  The metric the same row logs in the
    statistics pass has neither tag. *)
Theorem poolRow_tags (ro : RangeOrder) (p : Odyssey) (columns : list string)
    (i : nat) (row : scanner) (acc : Accumulator)
    (tags0 : gmap string string) (m : gmap string value) :
  accRow p row columns = Ok (tags0, m) →
  (∃ M,
     poolRow ro p columns i row acc = (acc ++ [M], Ok tt) ∧
     measurement M = "odyssey_pools" ∧
     (∀ s, tags M !! "user" = Some s ↔
           m !! "user" = Some (VString s) ∧ s ≠ EmptyString) ∧
     (∀ s, tags M !! "pool_mode" = Some s ↔
           m !! "pool_mode" = Some (VString s) ∧ s ≠ EmptyString) ∧
     fields M !! "user" = None ∧ fields M !! "pool_mode" = None) ∧
  (∀ acc', statsRow ro p columns i row acc = (acc', Ok tt) →
     ∃ M, acc' = acc ++ [M] ∧
          tags M !! "user" = None ∧ tags M !! "pool_mode" = None).
Proof.
  intros Hrow.
  destruct (accRow_Ok _ _ _ _ _ Hrow) as (Hscan & a & db & Ha & Hdb & ->).
  split.
  - eexists. split; [by rewrite poolRow_eq, Hrow|]. cbn [measurement tags fields].
    split; [done|]. split_and!.
    + intros s. rewrite tagFrom_lookup, decide_False by done.
      apply tagFrom_spec. by rewrite !lookup_insert_ne.
    + intros s. apply tagFrom_spec.
      by rewrite tagFrom_lookup, decide_False, !lookup_insert_ne.
    + apply map_lookup_filter_None_2. right. intros v _. by vm_compute.
    + apply map_lookup_filter_None_2. right. intros v _. by vm_compute.
  - intros acc'. rewrite statsRow_eq, Hrow.
    destruct (statsFields _ _) as [e|fs]; intros [= <-].
    eexists. split; [done|]. cbn [tags]. by rewrite !lookup_insert_ne.
Qed.

Lemma poolRow_tags_witness :
  let p := proxy noRows noRows (inr "host=localhost") in
  let columns := ["user"; "pool_mode"; "database"; "cl_active"] in
  let row :=
    sqlRow [VString "bob"; VString EmptyString; VString "app"; VInt64 3] in
  let tags0 : gmap string string :=
    <["server" := "host=localhost"]> (<["db" := "app"]> ∅) in
  let m : gmap string value :=
    <["user" := VString "bob"]> (<["pool_mode" := VString EmptyString]>
    (<["database" := VString "app"]> (<["cl_active" := VInt64 3]> ∅))) in
  accRow p row columns = Ok (tags0, m) ∧
  ∃ M, poolRow orderFwd p columns 0 row [] = ([M], Ok tt) ∧
       tags M !! "user" = Some "bob" ∧ tags M !! "pool_mode" = None ∧
       fields M !! "user" = None ∧ fields M !! "pool_mode" = None.
Proof.
  intros p columns row tags0 m.
  assert (accRow p row columns = Ok (tags0, m)) as Hrow
    by (vm_compute; reflexivity).
  split; [exact Hrow|].
  destruct (poolRow_tags orderFwd p columns 0 row [] tags0 m Hrow)
    as [(M & Hrun & _ & Huser & Hmode & Hf1 & Hf2) _].
  exists M. split; [exact Hrun|]. split; [|split; [|split; assumption]].
  - apply Huser. split; [vm_compute; reflexivity | discriminate].
  - destruct (tags M !! "pool_mode") as [s|] eqn:Hs; [|reflexivity].
    destruct (proj1 (Hmode s) eq_refl) as [Hm Hne]. vm_compute in Hm.
    injection Hm as <-. destruct Hne. reflexivity.
Defined.

(** C6: a pool-status row that [accRow] has scanned logs one
    "odyssey_pools" metric whose fields are the columns of the row outside
    the ignore set, each with the value the scan stored, of whatever type;
    a row all of whose columns are ignored still logs its metric, with no
    field. *)
Theorem poolRow_fields (ro : RangeOrder) (p : Odyssey) (columns : list string)
    (i : nat) (row : scanner) (acc : Accumulator)
    (tags0 : gmap string string) (m : gmap string value) :
  let ignored := ["user"; "database"; "pool_mode"; "avg_req"; "avg_recv";
                  "avg_sent"; "avg_query"] in
  accRow p row columns = Ok (tags0, m) →
  ∃ M,
    poolRow ro p columns i row acc = (acc ++ [M], Ok tt) ∧
    measurement M = "odyssey_pools" ∧
    (∀ col, fields M !! col = if decide (col ∈ ignored) then None else m !! col) ∧
    ((∀ col, is_Some (m !! col) → col ∈ ignored) → fields M = ∅).
Proof.
  intros ignored Hrow. eexists. split; [by rewrite poolRow_eq, Hrow|].
  cbn [measurement fields]. split; [done|].
  assert (∀ col, filter (λ kv, ignore kv.1 = false) m !! col =
                 if decide (col ∈ ignored) then None else m !! col) as Hall.
  { intros col. rewrite map_lookup_filter.
    destruct (m !! col) as [v|]; simpl; [|by case_decide].
    case_decide as Hin.
    - apply ignore_spec in Hin. by rewrite option_guard_False by (simpl; congruence).
    - apply ignore_false in Hin. by rewrite option_guard_True. }
  split; [done|]. intros Hign. apply map_eq. intros col.
  rewrite Hall, lookup_empty. case_decide as Hin; [done|].
  destruct (m !! col) eqn:Hcol; [|done]. destruct Hin. apply Hign. eauto.
Qed.

Lemma poolRow_fields_witness :
  let p := proxy noRows noRows (inr "host=localhost") in
  let columns := ["user"; "database"; "avg_req"] in
  let row := sqlRow [VString "bob"; VString "app"; VFloat64 0] in
  let tags0 : gmap string string :=
    <["server" := "host=localhost"]> (<["db" := "app"]> ∅) in
  let m : gmap string value :=
    <["user" := VString "bob"]> (<["database" := VString "app"]>
    (<["avg_req" := VFloat64 0]> ∅)) in
  accRow p row columns = Ok (tags0, m) ∧
  ∃ M, poolRow orderFwd p columns 0 row [] = ([M], Ok tt) ∧
       measurement M = "odyssey_pools" ∧ fields M = ∅.
Proof.
  intros p columns row tags0 m.
  assert (accRow p row columns = Ok (tags0, m)) as Hrow
    by (vm_compute; reflexivity).
  split; [exact Hrow|].
  destruct (poolRow_fields orderFwd p columns 0 row [] tags0 m Hrow)
    as (M & Hrun & Hname & _ & Hempty).
  exists M. split; [exact Hrun|]. split; [exact Hname|].
  apply Hempty. intros col [v Hv]. unfold m in Hv.
  destruct (decide (col = "user")) as [->|H1]; [repeat constructor|].
  destruct (decide (col = "database")) as [->|H2]; [repeat constructor|].
  destruct (decide (col = "avg_req")) as [->|H3]; [repeat constructor|].
  rewrite !lookup_insert_ne, lookup_empty in Hv by congruence. discriminate.
Defined.


(** ** The "server" tag *)

Lemma rowBody_eq ps ro p columns i row acc :
  ∃ name (fs : gmap string value → error + gmap string value)
         (ts : gmap string value → gmap string string → gmap string string),
    (∀ m t, ts m t !! "server" = t !! "server") ∧
    rowBody ps ro p columns i row acc =
      match accRow p row columns with
      | Ok (tags, m) =>
          match fs m with
          | inl err => (acc, Err err)
          | inr fields =>
              (acc ++ [{| measurement := name; fields := fields;
                          tags := ts m tags |}], Ok tt)
          end
      | Err err => (acc, Err err)
      | Panic x => (acc, Panic x)
      end.
Proof.
  destruct ps; simpl.
  - exists "odyssey", (λ m, statsFields (range ro Stats i m) ∅), (λ _ t, t).
    split; [done|]. by rewrite statsRow_eq.
  - exists "odyssey_pools", (λ m, inr (filter (λ kv, ignore kv.1 = false) m)),
      (λ m t, tagFrom "pool_mode" m (tagFrom "user" m t)).
    split; [|by rewrite poolRow_eq].
    intros m t. by rewrite !tagFrom_lookup, !decide_False.
Qed.

Lemma rowBody_address_error ps ro p columns i row acc e :
  SanitizedAddress p = inl e →
  ∃ r, rowBody ps ro p columns i row acc = (acc, r) ∧
       is_ok r = false ∧
       match scanRow row columns with
       | inl err => r = Err err
       | inr m =>
           match dbnameOf m with
           | Ok _ => r = Err e
           | Err _ => False
           | Panic x => r = Panic x
           end
       end.
Proof.
  intros He.
  destruct (rowBody_eq ps ro p columns i row acc)
    as (name & fs & ts & Hts & ->).
  unfold accRow. destruct (scanRow row columns) as [err|m]; [by eauto|].
  destruct (dbnameOf m) as [db|e'|x] eqn:Hdb.
  - rewrite He. by eauto.
  - by destruct (dbnameOf_not_Err m e').
  - by eauto.
Qed.

Lemma forRows_address_error ps ro p columns rows i acc e :
  SanitizedAddress p = inl e →
  ∃ r, forRows (rowBody ps ro p columns) i rows acc = (acc, r) ∧
       (is_ok r = true → rows = []).
Proof.
  intros He. destruct rows as [|row rows]; [by exists (Ok tt)|].
  destruct (rowBody_address_error ps ro p columns i row acc e He)
    as (r & Hrun & Hr & _).
  exists r. split; [by apply forRows_fail|]. by rewrite Hr.
Qed.

(** C7: in either pass, a row that logs a metric gives it the "server" tag,
    whose value is what [SanitizedAddress] returned.  When
    [SanitizedAddress] returns an error the row logs nothing and does not
    succeed: it returns that error as soon as the call is reached, that
    is unless the scan has failed before (the row returns the scan error)
    or the "database" assertion has panicked before; the loop over the
    result set ends at that row with the same outcome; and the cycle as a
    whole logs nothing and can only succeed when neither result set has a
    row. *)
Theorem server_tag (ps : pass) (ro : RangeOrder) (p : Odyssey)
    (columns : list string) (i : nat) (row : scanner) (acc : Accumulator) :
  (∀ acc', rowBody ps ro p columns i row acc = (acc', Ok tt) →
     ∃ a M, SanitizedAddress p = inr a ∧ acc' = acc ++ [M]
            ∧ tags M !! "server" = Some a) ∧
  (∀ e, SanitizedAddress p = inl e →
     (∃ r, rowBody ps ro p columns i row acc = (acc, r) ∧
           is_ok r = false ∧
           match scanRow row columns with
           | inl err => r = Err err
           | inr m =>
               match dbnameOf m with
               | Ok _ => r = Err e
               | Err _ => False
               | Panic x => r = Panic x
               end
           end ∧
           ∀ rows,
             forRows (rowBody ps ro p columns) i (row :: rows) acc = (acc, r)) ∧
     (∃ r, Gather ro p acc = (acc, r) ∧
           (is_ok r = true →
            ∀ q rs, q = "SHOW STATS" ∨ q = "SHOW POOLS" →
                    Query p q = inr rs → rowList rs = []))).
Proof.
  split.
  - destruct (rowBody_eq ps ro p columns i row acc)
      as (name & fs & ts & Hts & Hbody).
    intros acc'. rewrite Hbody.
    destruct (accRow p row columns) as [[t m]|e|x] eqn:Hrow; try done.
    destruct (accRow_Ok _ _ _ _ _ Hrow) as (_ & a & db & Ha & _ & ->).
    destruct (fs m) as [err|f] eqn:Hf; [done|].
    intros [= <-]. exists a. eexists. split_and!; [done..|].
    cbn [tags]. by rewrite Hts, lookup_insert_eq.
  - intros e He. split.
    + destruct (rowBody_address_error ps ro p columns i row acc e He)
        as (r & Hrun & Hr & Hwhy).
      exists r. split_and!; [done..|]. intros rows. by apply forRows_fail.
    + assert (∀ (a : Accumulator) (r : result unit) (P : Prop),
                is_ok r = false → ∃ r', (a, r) = (a, r') ∧ (is_ok r' = true → P))
        as Hstop.
      { intros a r P Hr. exists r. split; [done|]. by rewrite Hr. }
      rewrite Gather_eq.
      destruct (Query p "SHOW STATS") as [err|rows] eqn:Hq; [by apply Hstop|].
      destruct (Columns rows) as [err|scolumns]; [by apply Hstop|].
      destruct (forRows_address_error Stats ro p scolumns (rowList rows) 0 acc e He)
        as (r1 & Hloop1 & Hr1).
      simpl in Hloop1. rewrite Hloop1.
      destruct r1 as [[]|e1|x1]; [|by apply Hstop..].
      specialize (Hr1 eq_refl).
      destruct (rowsErr rows); [by apply Hstop|].
      destruct (Query p "SHOW POOLS") as [err|poolRows] eqn:Hpq; [by apply Hstop|].
      destruct (Columns poolRows) as [err|pcolumns]; [by apply Hstop|].
      destruct (forRows_address_error Pools ro p pcolumns (rowList poolRows) 0 acc e He)
        as (r2 & Hloop2 & Hr2).
      simpl in Hloop2. rewrite Hloop2.
      destruct r2 as [[]|e2|x2]; [|by apply Hstop..].
      specialize (Hr2 eq_refl).
      destruct (rowsErr poolRows); [by apply Hstop|].
      exists (Ok tt). split; [done|]. intros _ q rs [->| ->] Hrs; congruence.
Qed.

Lemma server_tag_witness :
  let columns := ["database"; "cl_active"] in
  let row := sqlRow [VString "app"; VInt64 3] in
  let bad := proxy noRows noRows (inl (ExtError "invalid address")) in
  let good := proxy noRows noRows (inr "host=localhost") in
  (∃ M, rowBody Pools orderFwd good columns 0 row [] = ([M], Ok tt) ∧
        tags M !! "server" = Some "host=localhost") ∧
  rowBody Stats orderFwd bad columns 0 row []
    = ([], Err (ExtError "invalid address")) ∧
  forRows (rowBody Stats orderFwd bad columns) 0 [row; row] []
    = ([], Err (ExtError "invalid address")).
Proof.
  intros columns row bad good. split.
  - destruct (rowBody Pools orderFwd good columns 0 row []) as [acc' r] eqn:Hrun.
    assert (r = Ok tt ∧ length acc' = 1%nat) as [-> Hlen].
    { vm_compute in Hrun. injection Hrun as <- <-. split; reflexivity. }
    destruct (proj1 (server_tag Pools orderFwd good columns 0 row []) acc' Hrun)
      as (a & M & Ha & -> & Hserver).
    injection Ha as <-. exists M. split; [reflexivity|exact Hserver].
  - destruct (proj2 (server_tag Stats orderFwd bad columns 0 row [])
                (ExtError "invalid address") eq_refl)
      as [(r & Hrun & _ & Hr & Hloop) _].
    vm_compute in Hr. subst r. split; [exact Hrun|exact (Hloop [row])].
Defined.

(** ** The end-of-iteration check *)

(** C8: when every row of a result set has been processed and the loop
    has ended normally, an error reported by [Err()] is what the cycle
    returns: after the statistics loop, before the pool-status query is
    issued, and after the pool-status loop, as the result of [Gather].
    The metrics logged by the rows stay logged. *)
Theorem Gather_rows_err (ro : RangeOrder) (p : Odyssey) (acc acc1 : Accumulator)
    (rows : Rows) (columns : list string) :
  Query p "SHOW STATS" = inr rows →
  Columns rows = inr columns →
  forRows (statsRow ro p columns) 0 (rowList rows) acc = (acc1, Ok tt) →
  (∀ e, rowsErr rows = Some e → Gather ro p acc = (acc1, Err e)) ∧
  (∀ poolRows pcolumns acc2 e,
     rowsErr rows = None →
     Query p "SHOW POOLS" = inr poolRows →
     Columns poolRows = inr pcolumns →
     forRows (poolRow ro p pcolumns) 0 (rowList poolRows) acc1 = (acc2, Ok tt) →
     rowsErr poolRows = Some e →
     Gather ro p acc = (acc2, Err e)).
Proof.
  intros Hq Hc Hloop. split.
  - intros e He. by rewrite Gather_eq, Hq, Hc, Hloop, He.
  - intros poolRows pcolumns acc2 e He Hpq Hpc Hploop Hpe.
    by rewrite Gather_eq, Hq, Hc, Hloop, He, Hpq, Hpc, Hploop, Hpe.
Qed.

Lemma Gather_rows_err_witness :
  let e := ExtError "unexpected EOF" in
  let stats := rowsOf ["database"; "total_requests"]
                      [[VString "app"; VString "17"]] in
  let pools := rowsOf ["database"; "cl_active"] [[VString "app"; VInt64 3]] in
  let M1 := {| measurement := "odyssey";
               fields := {[ "total_requests" := VInt64 17 ]};
               tags := <["server" := "host=localhost"]> (<["db" := "app"]> ∅) |} in
  let M2 := {| measurement := "odyssey_pools";
               fields := {[ "cl_active" := VInt64 3 ]};
               tags := <["server" := "host=localhost"]> (<["db" := "app"]> ∅) |} in
  Gather orderFwd (proxy (stats (Some e)) (pools None) (inr "host=localhost")) []
    = ([M1], Err e) ∧
  Gather orderFwd (proxy (stats None) (pools (Some e)) (inr "host=localhost")) []
    = ([M1; M2], Err e).
Proof.
  intros e stats pools M1 M2. split.
  - refine (proj1 (Gather_rows_err orderFwd _ [] [M1] (stats (Some e))
                     ["database"; "total_requests"] _ _ _) e _);
      vm_compute; reflexivity.
  - refine (proj2 (Gather_rows_err orderFwd _ [] [M1] (stats None)
                     ["database"; "total_requests"] _ _ _)
                  (pools (Some e)) ["database"; "cl_active"] [M1; M2] e _ _ _ _ _);
      vm_compute; reflexivity.
Defined.

(** ** Row processing has no hidden state *)

Lemma ParseInt_error s e :
  (strconv.ParseInt s).2 = Some e → ∃ k, e = NumError "ParseInt" s k.
Proof.
  unfold strconv.ParseInt. destruct s as [|c0 rest]; simpl.
  { intros [= <-]. eauto. }
  repeat case_match; simpl; intros [= <-]; eauto.
Qed.

(** C9: what a row yields is a function of the row, the column list and
    the sanitized address alone.  Two runs that differ in everything else
    (the accumulator they append to, the position of the row, the order
    in which Go ranges over the map, the query collaborator) compute the
    same tags and column map in [accRow], log the same metrics, and end
    the same way, in the statistics pass as in the pool-status pass. *)
Theorem row_deterministic (ro1 ro2 : RangeOrder)
    (q1 q2 : string → error + Rows) (address : error + string)
    (columns : list string) (row : scanner)
    (i1 i2 : nat) (acc1 acc2 : Accumulator) :
  let p1 := {| Query := q1; SanitizedAddress := address |} in
  let p2 := {| Query := q2; SanitizedAddress := address |} in
  accRow p1 row columns = accRow p2 row columns ∧
  (∃ ms r1 r2,
     statsRow ro1 p1 columns i1 row acc1 = (acc1 ++ ms, r1) ∧
     statsRow ro2 p2 columns i2 row acc2 = (acc2 ++ ms, r2) ∧
     sameOutcome r1 r2 ∧ (length ms ≤ 1)%nat) ∧
  (∃ ms r,
     poolRow ro1 p1 columns i1 row acc1 = (acc1 ++ ms, r) ∧
     poolRow ro2 p2 columns i2 row acc2 = (acc2 ++ ms, r) ∧
     (length ms ≤ 1)%nat).
Proof.
  intros p1 p2.
  assert (accRow p1 row columns = accRow p2 row columns) as Hacc by done.
  split; [done|]. split.
  - rewrite !statsRow_eq, <- Hacc.
    destruct (accRow p1 row columns) as [[t m]|e|x].
    + destruct (statsFields (range ro1 Stats i1 m) ∅) as [e1|f1] eqn:H1;
        destruct (statsFields (range ro2 Stats i2 m) ∅) as [e2|f2] eqn:H2.
      * exists [], (Err e1), (Err e2). rewrite !app_nil_r.
        split_and!; [done|done| |simpl; lia]. right.
        apply statsFields_inl in H1 as (c1 & s1 & _ & _ & Hp1).
        apply statsFields_inl in H2 as (c2 & s2 & _ & _ & Hp2).
        apply ParseInt_error in Hp1 as [k1 ->].
        apply ParseInt_error in Hp2 as [k2 ->]. eauto 10.
      * assert (badRow m) as Hbad by (apply (statsFields_range_inl ro1 i1); eauto).
        apply (statsFields_range_inl ro2 i2) in Hbad as [e2 He2]. congruence.
      * assert (badRow m) as Hbad by (apply (statsFields_range_inl ro2 i2); eauto).
        apply (statsFields_range_inl ro1 i1) in Hbad as [e1 He1]. congruence.
      * apply statsFields_range in H1, H2. subst f1 f2.
        eexists [_], (Ok tt), (Ok tt). split_and!; [done|done|done|simpl; lia].
    + exists [], (Err e), (Err e). rewrite !app_nil_r.
      split_and!; [done|done|by left|simpl; lia].
    + exists [], (Panic x), (Panic x). rewrite !app_nil_r.
      split_and!; [done|done|done|simpl; lia].
  - rewrite !poolRow_eq, <- Hacc.
    destruct (accRow p1 row columns) as [[t m]|e|x].
    + eexists [_], (Ok tt). split_and!; [done|done|simpl; lia].
    + exists [], (Err e). rewrite !app_nil_r. split_and!; [done|done|simpl; lia].
    + exists [], (Panic x). rewrite !app_nil_r. split_and!; [done|done|simpl; lia].
Qed.

(** The error a bad row returns does depend on the order of the visit. *)
Example error_depends_on_order :
  let p := proxy noRows noRows (inr "host=localhost") in
  let columns := ["a"; "b"] in
  let row := sqlRow [VString "x"; VString "y"] in
  statsRow orderFwd p columns 0 row [] ≠ statsRow orderRev p columns 0 row [].
Proof. vm_compute. discriminate. Qed.

(** ** A bad row in the statistics pass *)

Lemma statsRow_panic ro p columns i row acc acc' x :
  statsRow ro p columns i row acc = (acc', Panic x) →
  ∃ m, scanRow row columns = inr m ∧ dbnameOf m = Panic x.
Proof.
  rewrite statsRow_eq.
  destruct (accRow p row columns) as [[t m]|e|y] eqn:Hrow.
  - by destruct (statsFields _ _).
  - done.
  - intros [= <- <-]. by apply accRow_Panic in Hrow.
Qed.

Lemma forRows_stats_no_panic ro p columns rows i acc acc' r :
  forallb (assertsString columns) rows = true →
  forRows (statsRow ro p columns) i rows acc = (acc', r) →
  is_panic r = false.
Proof.
  revert i acc. induction rows as [|row rows IH]; intros i acc Hsafe.
  { by intros [= <- <-]. }
  simpl in Hsafe. apply andb_true_iff in Hsafe as [Hrow Hsafe].
  simpl. unfold bind.
  destruct (statsRow ro p columns i row acc) as [acc1 [[]|e|x]] eqn:Hrun.
  - by apply IH.
  - by intros [= <- <-].
  - apply statsRow_panic in Hrun as (m & Hscan & Hdb).
    unfold assertsString in Hrow. by rewrite Hscan, Hdb in Hrow.
Qed.

Lemma statsRow_bad ro p columns i row acc m :
  scanRow row columns = inr m → badRow m →
  ∃ r, statsRow ro p columns i row acc = (acc, r) ∧ is_ok r = false.
Proof.
  intros Hscan Hbad. rewrite statsRow_eq, accRow_eq, Hscan.
  apply (statsFields_range_inl ro i) in Hbad as [e He].
  destruct (m !! "database") as [[]|]; try (by eauto);
    destruct (SanitizedAddress p); try (by eauto); rewrite He; by eauto.
Qed.

(** C3 as it is stated does not hold: the rows that precede the bad one
    have logged their metrics by the time the cycle fails.  Here the first
    statistics row is fine and the second holds "abc" in the column
    "foo". *)
Lemma Gather_bad_row_counterexample :
  ¬ (∀ (ro : RangeOrder) (p : Odyssey) (acc : Accumulator) (rows : Rows)
       (columns : list string) (row : scanner) (m : gmap string value)
       (col s : string),
       Query p "SHOW STATS" = inr rows →
       Columns rows = inr columns →
       row ∈ rowList rows →
       scanRow row columns = inr m →
       m !! col = Some (VString s) → ignore col = false →
       (strconv.ParseInt s).2 ≠ None →
       ∃ e, Gather ro p acc = (acc, Err e)).
Proof.
  intros H.
  set (columns := ["database"; "foo"]).
  set (rows := rowsOf columns [[VString "app"; VString "1"];
                               [VString "app"; VString "abc"]] None).
  destruct (H orderFwd (proxy rows noRows (inr "host=localhost")) [] rows
              columns (sqlRow [VString "app"; VString "abc"])
              (<["database" := VString "app"]> (<["foo" := VString "abc"]> ∅))
              "foo" "abc") as [e He];
    try (vm_compute; reflexivity).
  - right. left.
  - vm_compute. discriminate.
  - vm_compute in He. discriminate.
Qed.

(** C3, amended: a statistics row that holds, outside the ignore set, a
    string [ParseInt] rejects makes the cycle fail.  The accumulator is
    left as the rows before it left it: that row, the rows after it and
    the pool-status pass log nothing, while the metrics of the rows before
    it, at most one "odyssey" metric each, stay logged.  The cycle returns
    an error whenever no row up to that one has a "database" value on
    which the type assertion panics. *)
Theorem Gather_bad_row (ro : RangeOrder) (p : Odyssey) (acc : Accumulator)
    (rows : Rows) (columns : list string) (pre post : list scanner)
    (bad : scanner) (m : gmap string value) :
  Query p "SHOW STATS" = inr rows →
  Columns rows = inr columns →
  rowList rows = pre ++ bad :: post →
  scanRow bad columns = inr m →
  badRow m →
  ∃ r ms,
    Gather ro p acc = (acc ++ ms, r) ∧
    (forRows (statsRow ro p columns) 0 pre acc).1 = acc ++ ms ∧
    (length ms ≤ length pre)%nat ∧
    Forall (λ M, measurement M = "odyssey") ms ∧
    is_ok r = false ∧
    (forallb (assertsString columns) (pre ++ [bad]) = true →
     is_err r = true).
Proof.
  intros Hq Hc Hrows Hscan Hbad.
  destruct (forRows (statsRow ro p columns) 0 pre acc) as [acc1 r1] eqn:Hpre.
  destruct (forRows_log (λ M, measurement M = "odyssey") (statsRow ro p columns))
    with (rows := pre) (i := 0%nat) (acc := acc) (acc' := acc1) (r := r1)
    as (ms & -> & Hlen & Hnames); [|done|].
  { intros i row a a' r. rewrite statsRow_eq.
    destruct (accRow p row columns) as [[t m']|e|x];
      [destruct (statsFields _ _)|..]; intros [= <- <-];
      first [ exists []; rewrite app_nil_r; split_and!; [done|simpl; lia|done]
            | eexists [_]; split_and!; [done|simpl; lia|];
              by apply Forall_singleton ]. }
  destruct (statsRow_bad ro p columns (0 + length pre) bad (acc ++ ms) m Hscan Hbad)
    as (rb & Hrun & Hrb).
  assert (∃ r, forRows (statsRow ro p columns) 0 (rowList rows) acc
                 = (acc ++ ms, r) ∧ is_ok r = false ∧
               forRows (statsRow ro p columns) 0 (pre ++ [bad]) acc
                 = (acc ++ ms, r)) as (r & Hloop & Hr & Hloop').
  { rewrite Hrows, !forRows_app, Hpre. destruct r1 as [[]|e|x].
    - exists rb. split_and!; [|done|].
      + by apply forRows_fail.
      + by apply forRows_fail.
    - by exists (Err e).
    - by exists (Panic x). }
  exists r, ms. split_and!; try done.
  - rewrite Gather_eq, Hq, Hc, Hloop. by destruct r as [[]|e|x].
  - intros Hsafe.
    pose proof (forRows_stats_no_panic _ _ _ _ _ _ _ _ Hsafe Hloop') as Hnp.
    by destruct r.
Qed.

Lemma Gather_bad_row_witness :
  let columns := ["database"; "foo"] in
  let rows := rowsOf columns [[VString "app"; VString "1"];
                              [VString "app"; VString "abc"];
                              [VString "app"; VString "2"]] None in
  let pools := rowsOf ["database"; "cl_active"] [[VString "app"; VInt64 3]] None in
  let p := proxy rows pools (inr "host=localhost") in
  let M := {| measurement := "odyssey";
              fields := {[ "foo" := VInt64 1 ]};
              tags := <["server" := "host=localhost"]> (<["db" := "app"]> ∅) |} in
  ∃ r, Gather orderFwd p [] = ([M], r) ∧ is_err r = true.
Proof.
  intros columns rows pools p M.
  destruct (Gather_bad_row orderFwd p [] rows columns
              [sqlRow [VString "app"; VString "1"]]
              [sqlRow [VString "app"; VString "2"]]
              (sqlRow [VString "app"; VString "abc"])
              (<["database" := VString "app"]> (<["foo" := VString "abc"]> ∅)))
    as (r & ms & Hrun & Hpre & _ & _ & _ & Herr);
    [vm_compute; reflexivity | vm_compute; reflexivity
    |vm_compute; reflexivity | vm_compute; reflexivity
    |apply badRowb_spec; vm_compute; reflexivity |].
  exists r. split.
  - vm_compute in Hpre. rewrite <- Hpre in Hrun. exact Hrun.
  - apply Herr. vm_compute. reflexivity.
Defined.

(** * Further properties of the cycle *)

Local Set Warnings "-clear-no-such-hyp".

(** ** Loops that run to the end *)

Lemma statsRow_Ok ro p columns i row acc acc' :
  statsRow ro p columns i row acc = (acc', Ok tt) ↔
  ∃ M, statsMetricOf p columns row = Some M ∧ acc' = acc ++ [M].
Proof.
  rewrite statsRow_eq. unfold statsMetricOf.
  destruct (accRow p row columns) as [[t m]|e|x];
    [|split; [done|by intros (? & ? & ?)]..].
  destruct (badRowb m) eqn:Hb.
  - apply badRowb_spec, (statsFields_range_inl ro i) in Hb as [e ->].
    split; [done|by intros (? & ? & ?)].
  - apply badRowb_false in Hb. rewrite statsFields_good by done. split.
    + intros [= <-]. eauto.
    + by intros (M & [= <-] & ->).
Qed.

Lemma poolRow_Ok ro p columns i row acc acc' :
  poolRow ro p columns i row acc = (acc', Ok tt) ↔
  ∃ M, poolMetricOf p columns row = Some M ∧ acc' = acc ++ [M].
Proof.
  rewrite poolRow_eq. unfold poolMetricOf.
  destruct (accRow p row columns) as [[t m]|e|x];
    [|split; [done|by intros (? & ? & ?)]..].
  split.
  - intros [= <-]. eauto.
  - by intros (M & [= <-] & ->).
Qed.

Lemma forRows_Ok (f : scanner → option Metric)
    (body : nat → scanner → Run unit) :
  (∀ i row a a', body i row a = (a', Ok tt) ↔
                 ∃ M, f row = Some M ∧ a' = a ++ [M]) →
  ∀ rows i acc acc',
    forRows body i rows acc = (acc', Ok tt) ↔
    ∃ ms, Forall2 (λ row M, f row = Some M) rows ms ∧ acc' = acc ++ ms.
Proof.
  intros Hbody rows. induction rows as [|row rows IH]; intros i acc acc'.
  { simpl. unfold ret. split.
    - intros [= <-]. exists []. split; [constructor|by rewrite app_nil_r].
    - intros (ms & Hms & ->). apply Forall2_nil_inv_l in Hms as ->.
      by rewrite app_nil_r. }
  simpl. unfold bind.
  destruct (body i row acc) as [a1 r1] eqn:Hb. split.
  - destruct r1 as [[]|e|x]; [|done..].
    apply Hbody in Hb as (M & HM & ->).
    intros (ms & Hms & ->)%IH. exists (M :: ms).
    split; [by constructor|]. by rewrite <- app_assoc.
  - intros (ms & Hms & ->).
    apply Forall2_cons_inv_l in Hms as (M & ms' & HM & Hms' & ->).
    assert (body i row acc = (acc ++ [M], Ok tt)) as Hb' by (apply Hbody; eauto).
    rewrite Hb in Hb'. injection Hb' as -> ->.
    apply IH. exists ms'. split; [done|]. by rewrite <- app_assoc.
Qed.

(** X2: the cycle succeeds exactly when both queries, both column
    listings and both end-of-iteration checks succeed and every row logs
    its metric; the accumulator then gains one metric per row, in row
    order, the statistics rows first. *)
Theorem Gather_success (ro : RangeOrder) (p : Odyssey) (acc acc' : Accumulator) :
  Gather ro p acc = (acc', Ok tt) ↔
  ∃ rows columns poolRows pcolumns ms1 ms2,
    Query p "SHOW STATS" = inr rows ∧ Columns rows = inr columns ∧
    rowsErr rows = None ∧
    Query p "SHOW POOLS" = inr poolRows ∧ Columns poolRows = inr pcolumns ∧
    rowsErr poolRows = None ∧
    Forall2 (λ row M, statsMetricOf p columns row = Some M) (rowList rows) ms1 ∧
    Forall2 (λ row M, poolMetricOf p pcolumns row = Some M)
            (rowList poolRows) ms2 ∧
    acc' = acc ++ ms1 ++ ms2.
Proof.
  rewrite Gather_eq. split.
  - destruct (Query p "SHOW STATS") as [err|rows] eqn:Hq; [done|].
    destruct (Columns rows) as [err|columns] eqn:Hc; [done|].
    destruct (forRows _ 0 (rowList rows) acc) as [acc1 r1] eqn:H1.
    destruct r1 as [[]|e|x]; [|done..].
    apply (forRows_Ok (statsMetricOf p columns)) in H1 as (ms1 & Hms1 & ->);
      [|intros; apply statsRow_Ok].
    destruct (rowsErr rows) eqn:He; [done|].
    destruct (Query p "SHOW POOLS") as [err|poolRows] eqn:Hpq; [done|].
    destruct (Columns poolRows) as [err|pcolumns] eqn:Hpc; [done|].
    destruct (forRows _ 0 (rowList poolRows) _) as [acc2 r2] eqn:H2.
    destruct r2 as [[]|e|x]; [|done..].
    apply (forRows_Ok (poolMetricOf p pcolumns)) in H2 as (ms2 & Hms2 & ->);
      [|intros; apply poolRow_Ok].
    destruct (rowsErr poolRows) eqn:Hpe; [done|]. intros [= <-].
    exists rows, columns, poolRows, pcolumns, ms1, ms2.
    split_and!; try done. by rewrite app_assoc.
  - intros (rows & columns & poolRows & pcolumns & ms1 & ms2 & -> & -> & ->
            & -> & -> & -> & Hms1 & Hms2 & ->).
    assert (forRows (statsRow ro p columns) 0 (rowList rows) acc
            = (acc ++ ms1, Ok tt)) as ->.
    { apply (forRows_Ok (statsMetricOf p columns)); [intros; apply statsRow_Ok|].
      eauto. }
    assert (forRows (poolRow ro p pcolumns) 0 (rowList poolRows) (acc ++ ms1)
            = ((acc ++ ms1) ++ ms2, Ok tt)) as ->.
    { apply (forRows_Ok (poolMetricOf p pcolumns)); [intros; apply poolRow_Ok|].
      eauto. }
    by rewrite app_assoc.
Qed.

(** ** The two passes *)

Lemma Gather_phases ro p acc :
  Gather ro p acc =
    match phase p "SHOW STATS" (statsRow ro p) acc with
    | (acc1, Ok _) => phase p "SHOW POOLS" (poolRow ro p) acc1
    | other => other
    end.
Proof.
  rewrite Gather_eq. unfold phase, bind, try, checkErr.
  destruct (Query p "SHOW STATS") as [err|rows]; [done|].
  destruct (Columns rows) as [err|columns]; [done|].
  destruct (forRows _ 0 (rowList rows) acc) as [acc1 [[]|e|x]]; try done.
  destruct (rowsErr rows); [done|].
  destruct (Query p "SHOW POOLS") as [err|poolRows]; [done|].
  destruct (Columns poolRows) as [err|pcolumns]; [done|].
  by destruct (forRows _ 0 (rowList poolRows) acc1) as [acc2 [[]|e|x]].
Qed.

Lemma phase_eq p q body acc :
  phase p q body acc =
    match Query p q with
    | inl err => (acc, Err err)
    | inr rows =>
      match Columns rows with
      | inl err => (acc, Err err)
      | inr columns =>
        match forRows (body columns) 0 (rowList rows) acc with
        | (acc1, Ok _) =>
            match rowsErr rows with
            | Some err => (acc1, Err err)
            | None => (acc1, Ok tt)
            end
        | other => other
        end
      end
    end.
Proof.
  unfold phase, bind, try, checkErr.
  destruct (Query p q) as [err|rows]; [done|].
  destruct (Columns rows) as [err|columns]; [done|].
  by destruct (forRows _ 0 (rowList rows) acc) as [acc1 [[]|e|x]].
Qed.

(** ** What a cycle logs, whatever its outcome *)

Lemma statsRow_not_Ok ro p columns i row acc acc' r :
  statsRow ro p columns i row acc = (acc', r) → is_ok r = false → acc' = acc.
Proof.
  rewrite statsRow_eq.
  destruct (accRow p row columns) as [[t m]|e|x];
    [destruct (statsFields _ _)|..]; by intros [= <- <-].
Qed.

Lemma poolRow_not_Ok ro p columns i row acc acc' r :
  poolRow ro p columns i row acc = (acc', r) → is_ok r = false → acc' = acc.
Proof.
  rewrite poolRow_eq.
  destruct (accRow p row columns) as [[t m]|e|x]; by intros [= <- <-].
Qed.

Lemma body_log (P : Metric → Prop) (f : scanner → option Metric)
    (body : nat → scanner → Run unit) :
  (∀ i row a a', body i row a = (a', Ok tt) ↔
                 ∃ M, f row = Some M ∧ a' = a ++ [M]) →
  (∀ i row a a' r, body i row a = (a', r) → is_ok r = false → a' = a) →
  (∀ row M, f row = Some M → P M) →
  ∀ i row a a' r, body i row a = (a', r) →
    ∃ ms, a' = a ++ ms ∧ (length ms ≤ 1)%nat ∧ Forall P ms.
Proof.
  intros HOk Hnot HP i row a a' r Hb. destruct r as [[]|e|x].
  - apply HOk in Hb as (M & HM & ->). exists [M].
    split_and!; [done|simpl; lia|]. apply Forall_singleton. by eapply HP.
  - apply Hnot in Hb as ->; [|done]. exists []. rewrite app_nil_r.
    split_and!; [done|simpl; lia|constructor].
  - apply Hnot in Hb as ->; [|done]. exists []. rewrite app_nil_r.
    split_and!; [done|simpl; lia|constructor].
Qed.

Lemma phase_log (P : Metric → Prop) (f : list string → scanner → option Metric)
    (p : Odyssey) (q : string) (body : list string → nat → scanner → Run unit) :
  (∀ columns i row a a', body columns i row a = (a', Ok tt) ↔
                         ∃ M, f columns row = Some M ∧ a' = a ++ [M]) →
  (∀ columns i row a a' r,
     body columns i row a = (a', r) → is_ok r = false → a' = a) →
  (∀ columns row M, f columns row = Some M → P M) →
  ∀ acc acc' r, phase p q body acc = (acc', r) →
    ∃ ms, acc' = acc ++ ms ∧ Forall P ms ∧
          (∀ rows, Query p q = inr rows →
                   (length ms ≤ length (rowList rows))%nat) ∧
          (is_ok r = true → ∀ rows, Query p q = inr rows →
                                    length ms = length (rowList rows)).
Proof.
  intros HOk Hnot HP acc acc' r. rewrite phase_eq.
  assert (∀ r' : result unit, is_ok r' = false → (acc, r') = (acc', r) →
    ∃ ms, acc' = acc ++ ms ∧ Forall P ms ∧
          (∀ rows, Query p q = inr rows →
                   (length ms ≤ length (rowList rows))%nat) ∧
          (is_ok r = true → ∀ rows, Query p q = inr rows →
                                    length ms = length (rowList rows)))
    as Hnone.
  { intros r' Hr' [= <- <-]. exists []. rewrite app_nil_r, Hr'.
    split_and!; [done|constructor|intros; simpl; lia|done]. }
  destruct (Query p q) as [err|rows] eqn:Hq; [by apply Hnone|].
  destruct (Columns rows) as [err|columns] eqn:Hc; [by apply Hnone|].
  destruct (forRows _ 0 (rowList rows) acc) as [acc1 r1] eqn:H1.
  destruct (forRows_log P (body columns)
              (body_log P (f columns) (body columns) (HOk columns)
                 (Hnot columns) (HP columns)) _ _ _ _ _ H1)
    as (ms & -> & Hlen & HF).
  assert (∀ r' : result unit, (is_ok r' = true → r1 = Ok tt) →
    (acc ++ ms, r') = (acc', r) →
    ∃ ms', acc' = acc ++ ms' ∧ Forall P ms' ∧
           (∀ rows', (inr rows : error + Rows) = inr rows' →
                     (length ms' ≤ length (rowList rows'))%nat) ∧
           (is_ok r = true → ∀ rows', (inr rows : error + Rows) = inr rows' →
                                      length ms' = length (rowList rows')))
    as Hsome.
  { intros r' Hr' [= <- <-]. exists ms. split_and!; [done|done| |].
    - by intros rows' [= <-].
    - intros Hok rows' [= <-]. rewrite (Hr' Hok) in H1.
      apply (forRows_Ok (f columns)) in H1 as (ms' & Hms & Heq);
        [|apply HOk].
      apply app_inv_head in Heq as ->. symmetry. by eapply Forall2_length. }
  destruct r1 as [[]|e|x]; [|by apply Hsome..].
  destruct (rowsErr rows); by apply Hsome.
Qed.

Lemma Gather_logs (P1 P2 : Metric → Prop) (ro : RangeOrder) (p : Odyssey)
    (acc : Accumulator) :
  (∀ columns row M, statsMetricOf p columns row = Some M → P1 M) →
  (∀ columns row M, poolMetricOf p columns row = Some M → P2 M) →
  ∃ ms1 ms2 r,
    Gather ro p acc = (acc ++ ms1 ++ ms2, r) ∧
    Forall P1 ms1 ∧ Forall P2 ms2 ∧
    (∀ rows, Query p "SHOW STATS" = inr rows →
             (length ms1 ≤ length (rowList rows))%nat) ∧
    (∀ rows, Query p "SHOW POOLS" = inr rows →
             (length ms2 ≤ length (rowList rows))%nat) ∧
    (ms2 ≠ [] → ∀ rows, Query p "SHOW STATS" = inr rows →
                        length ms1 = length (rowList rows)).
Proof.
  intros HP1 HP2. rewrite Gather_phases.
  destruct (phase p "SHOW STATS" (statsRow ro p) acc) as [acc1 r1] eqn:H1.
  destruct (phase_log P1 (statsMetricOf p) p "SHOW STATS" (statsRow ro p))
    with (4 := H1) as (ms1 & -> & HF1 & Hlen1 & Hfull1);
    [intros; apply statsRow_Ok | intros; by eapply statsRow_not_Ok | done |].
  assert (∀ r : result unit, ∃ ms1' ms2 r',
    (acc ++ ms1, r) = (acc ++ ms1' ++ ms2, r') ∧
    Forall P1 ms1' ∧ Forall P2 ms2 ∧
    (∀ rows, Query p "SHOW STATS" = inr rows →
             (length ms1' ≤ length (rowList rows))%nat) ∧
    (∀ rows, Query p "SHOW POOLS" = inr rows →
             (length ms2 ≤ length (rowList rows))%nat) ∧
    (ms2 ≠ [] → ∀ rows, Query p "SHOW STATS" = inr rows →
                        length ms1' = length (rowList rows))) as Hstop.
  { intros r. exists ms1, [], r. rewrite app_nil_r.
    split_and!; [done|done|constructor|done|intros; simpl; lia|done]. }
  destruct r1 as [[]|e|x]; [|apply Hstop..].
  destruct (phase p "SHOW POOLS" (poolRow ro p) (acc ++ ms1)) as [acc2 r2] eqn:H2.
  destruct (phase_log P2 (poolMetricOf p) p "SHOW POOLS" (poolRow ro p))
    with (4 := H2) as (ms2 & -> & HF2 & Hlen2 & _);
    [intros; apply poolRow_Ok | intros; by eapply poolRow_not_Ok | done |].
  exists ms1, ms2, r2. rewrite <- app_assoc.
  split_and!; [done..|]. intros _. by apply Hfull1.
Qed.

(** X1: whatever its outcome, a cycle only appends to the accumulator:
    some "odyssey" metrics, then some "odyssey_pools" metrics, no more of
    each than its result set has rows; and an "odyssey_pools" metric is
    logged only after every statistics row has logged its own. *)
Theorem Gather_appends (ro : RangeOrder) (p : Odyssey) (acc : Accumulator) :
  ∃ ms1 ms2 r,
    Gather ro p acc = (acc ++ ms1 ++ ms2, r) ∧
    Forall (λ M, measurement M = "odyssey") ms1 ∧
    Forall (λ M, measurement M = "odyssey_pools") ms2 ∧
    (∀ rows, Query p "SHOW STATS" = inr rows →
             (length ms1 ≤ length (rowList rows))%nat) ∧
    (∀ rows, Query p "SHOW POOLS" = inr rows →
             (length ms2 ≤ length (rowList rows))%nat) ∧
    (ms2 ≠ [] → ∀ rows, Query p "SHOW STATS" = inr rows →
                        length ms1 = length (rowList rows)).
Proof.
  apply Gather_logs.
  - intros columns row M. unfold statsMetricOf.
    destruct (accRow p row columns) as [[t m]|e|x]; [|done..].
    destruct (badRowb m); [done|]. by intros [= <-].
  - intros columns row M. unfold poolMetricOf.
    destruct (accRow p row columns) as [[t m]|e|x]; [|done..].
    by intros [= <-].
Qed.

(** X5: the fields of every "odyssey" metric a cycle logs are [int64]
    values under names outside the ignore set, and no "odyssey_pools"
    metric has a field named in the ignore set. *)
Theorem Gather_fields (ro : RangeOrder) (p : Odyssey) (acc : Accumulator) :
  ∃ ms1 ms2 r,
    Gather ro p acc = (acc ++ ms1 ++ ms2, r) ∧
    Forall (λ M, measurement M = "odyssey" ∧
                 ∀ col v, fields M !! col = Some v →
                          ignore col = false ∧ ∃ n, v = VInt64 n) ms1 ∧
    Forall (λ M, measurement M = "odyssey_pools" ∧
                 ∀ col, ignore col = true → fields M !! col = None) ms2.
Proof.
  destruct (Gather_logs
    (λ M, measurement M = "odyssey" ∧
          ∀ col v, fields M !! col = Some v →
                   ignore col = false ∧ ∃ n, v = VInt64 n)
    (λ M, measurement M = "odyssey_pools" ∧
          ∀ col, ignore col = true → fields M !! col = None) ro p acc)
    as (ms1 & ms2 & r & Hrun & H1 & H2 & _); [| |by eauto 10].
  - intros columns row M. unfold statsMetricOf.
    destruct (accRow p row columns) as [[t m]|e|x]; [|done..].
    destruct (badRowb m); [done|]. intros [= <-]. split; [done|].
    cbn [fields]. intros col v. unfold statsSpec.
    rewrite lookup_omap_Some. intros (w & Hkeep & Hw).
    apply map_lookup_filter_Some in Hw as [_ Hig]. split; [done|].
    destruct w; simpl in Hkeep; try done.
    + injection Hkeep as <-. eauto.
    + destruct (strconv.ParseInt s) as [n [err|]]; [done|].
      injection Hkeep as <-. eauto.
  - intros columns row M. unfold poolMetricOf.
    destruct (accRow p row columns) as [[t m]|e|x]; [|done..].
    intros [= <-]. split; [done|]. cbn [fields]. intros col Hig.
    apply map_lookup_filter_None_2. right. intros v _. simpl. congruence.
Qed.

Lemma tagFrom_dom key (m : gmap string value) (ts : gmap string string) :
  dom ts ⊆ dom (tagFrom key m ts) ∧ dom (tagFrom key m ts) ⊆ {[key]} ∪ dom ts.
Proof.
  unfold tagFrom. destruct (m !! key) as [[]|]; try set_solver.
  destruct (String.eqb s EmptyString); [set_solver|].
  rewrite dom_insert_L. set_solver.
Qed.

Lemma tagFrom_not_empty key (m : gmap string value) (ts : gmap string string) k :
  ts !! k ≠ Some EmptyString → tagFrom key m ts !! k ≠ Some EmptyString.
Proof.
  intros Hts. rewrite tagFrom_lookup. case_decide; [subst k|done].
  destruct (m !! key) as [[]|]; try done.
  destruct (String.eqb s EmptyString) eqn:Hs; [done|].
  apply String.eqb_neq in Hs. congruence.
Qed.

(** X6: every "odyssey" metric a cycle logs has exactly the tags "server"
    and "db"; every "odyssey_pools" metric has these two and no tag other
    than "user" and "pool_mode" besides, neither of which is ever the
    empty string. *)
Theorem Gather_tags (ro : RangeOrder) (p : Odyssey) (acc : Accumulator) :
  ∃ ms1 ms2 r,
    Gather ro p acc = (acc ++ ms1 ++ ms2, r) ∧
    Forall (λ M, measurement M = "odyssey" ∧
                 dom (tags M) = ({["server"; "db"]} : gset string)) ms1 ∧
    Forall (λ M, measurement M = "odyssey_pools" ∧
                 ({["server"; "db"]} : gset string) ⊆ dom (tags M) ∧
                 dom (tags M) ⊆ {["server"; "db"; "user"; "pool_mode"]} ∧
                 tags M !! "user" ≠ Some EmptyString ∧
                 tags M !! "pool_mode" ≠ Some EmptyString) ms2.
Proof.
  destruct (Gather_logs
    (λ M, measurement M = "odyssey" ∧
          dom (tags M) = ({["server"; "db"]} : gset string))
    (λ M, measurement M = "odyssey_pools" ∧
          ({["server"; "db"]} : gset string) ⊆ dom (tags M) ∧
          dom (tags M) ⊆ {["server"; "db"; "user"; "pool_mode"]} ∧
          tags M !! "user" ≠ Some EmptyString ∧
          tags M !! "pool_mode" ≠ Some EmptyString) ro p acc)
    as (ms1 & ms2 & r & Hrun & H1 & H2 & _); [| |by eauto 10].
  - intros columns row M. unfold statsMetricOf.
    destruct (accRow p row columns) as [[t m]|e|x] eqn:Hrow; [|done..].
    destruct (accRow_Ok _ _ _ _ _ Hrow) as (_ & a & db & _ & _ & ->).
    destruct (badRowb m); [done|]. intros [= <-]. split; [done|].
    cbn [tags]. rewrite !dom_insert_L, dom_empty_L. set_solver.
  - intros columns row M. unfold poolMetricOf.
    destruct (accRow p row columns) as [[t m]|e|x] eqn:Hrow; [|done..].
    destruct (accRow_Ok _ _ _ _ _ Hrow) as (_ & a & db & _ & _ & ->).
    intros [= <-]. split; [done|]. cbn [tags].
    pose proof (tagFrom_dom "user" m (<["server":=a]> (<["db":=db]> ∅))) as [Hu1 Hu2].
    pose proof (tagFrom_dom "pool_mode" m
                  (tagFrom "user" m (<["server":=a]> (<["db":=db]> ∅))))
      as [Hp1 Hp2].
    rewrite !dom_insert_L, dom_empty_L in Hu1, Hu2.
    split_and!; [set_solver|set_solver| |].
    + apply tagFrom_not_empty, tagFrom_not_empty.
      by rewrite !lookup_insert_ne, lookup_empty.
    + apply tagFrom_not_empty, tagFrom_not_empty.
      by rewrite !lookup_insert_ne, lookup_empty.
Qed.

(** ** Where failures come from *)

Lemma forRows_first_fail body i rows acc acc' (r : result unit) :
  forRows body i rows acc = (acc', r) → is_ok r = false →
  ∃ pre row post a,
    rows = pre ++ row :: post ∧
    forRows body i pre acc = (a, Ok tt) ∧
    body (i + length pre)%nat row a = (acc', r).
Proof.
  revert i acc. induction rows as [|row rows IH]; intros i acc.
  { intros [= <- <-]. done. }
  simpl. unfold bind.
  destruct (body i row acc) as [a1 r1] eqn:Hb.
  assert (is_ok r1 = false → (a1, r1) = (acc', r) →
    ∃ pre row0 post a,
      row :: rows = pre ++ row0 :: post ∧
      forRows body i pre acc = (a, Ok tt) ∧
      body (i + length pre)%nat row0 a = (acc', r)) as Hhere.
  { intros _ [= <- <-]. exists [], row, rows, acc. simpl.
    by rewrite Nat.add_0_r. }
  destruct r1 as [[]|e|x]; [|intros; by apply Hhere..].
  intros Hrun Hr.
  destruct (IH _ _ Hrun Hr) as (pre & row0 & post & a & -> & Hpre & Hrow).
  exists (row :: pre), row0, post, a. simpl. unfold bind. rewrite Hb.
  split_and!; [done|done|].
  by replace (i + S (length pre))%nat with (S i + length pre)%nat by lia.
Qed.

Lemma phase_fail p q body acc acc' r :
  phase p q body acc = (acc', r) → is_ok r = false →
  (∃ e, r = Err e ∧
        (Query p q = inl e ∨
         ∃ rows, Query p q = inr rows ∧
                 (Columns rows = inl e ∨ rowsErr rows = Some e))) ∨
  (∃ rows columns pre row post a,
     Query p q = inr rows ∧ Columns rows = inr columns ∧
     rowList rows = pre ++ row :: post ∧
     forRows (body columns) 0 pre acc = (a, Ok tt) ∧
     body columns (length pre) row a = (acc', r)).
Proof.
  rewrite phase_eq.
  destruct (Query p q) as [err|rows] eqn:Hq.
  { intros [= <- <-] _. left. eauto. }
  destruct (Columns rows) as [err|columns] eqn:Hc.
  { intros [= <- <-] _. left. eauto 10. }
  destruct (forRows _ 0 (rowList rows) acc) as [acc1 r1] eqn:H1.
  destruct r1 as [[]|e|x].
  - destruct (rowsErr rows) eqn:He; intros [= <- <-]; [|done].
    intros _. left. eauto 10.
  - intros [= <- <-] _. right.
    destruct (forRows_first_fail _ _ _ _ _ _ H1 eq_refl)
      as (pre & row & post & a & ? & ? & ?).
    exists rows, columns, pre, row, post, a. done.
  - intros [= <- <-] _. right.
    destruct (forRows_first_fail _ _ _ _ _ _ H1 eq_refl)
      as (pre & row & post & a & ? & ? & ?).
    exists rows, columns, pre, row, post, a. done.
Qed.

Lemma statsRow_Err ro p columns i row acc acc' e :
  statsRow ro p columns i row acc = (acc', Err e) →
  scanRow row columns = inl e ∨ SanitizedAddress p = inl e ∨
  ∃ m col s, scanRow row columns = inr m ∧
             m !! col = Some (VString s) ∧ ignore col = false ∧
             (strconv.ParseInt s).2 = Some e.
Proof.
  rewrite statsRow_eq. unfold accRow.
  destruct (scanRow row columns) as [err|m]; [intros [= <- <-]; by left|].
  destruct (dbnameOf m) as [db|e'|x] eqn:Hdb.
  - destruct (SanitizedAddress p) as [err|a]; [intros [= <- <-]; by eauto|].
    destruct (statsFields _ _) as [err|fs] eqn:Hf; [|done].
    intros [= <- <-]. right. right.
    apply statsFields_inl in Hf as (col & s & Hin & Hig & Hp).
    apply elem_of_range in Hin. eauto 10.
  - by destruct (dbnameOf_not_Err m e').
  - done.
Qed.

Lemma poolRow_Err ro p columns i row acc acc' e :
  poolRow ro p columns i row acc = (acc', Err e) →
  scanRow row columns = inl e ∨ SanitizedAddress p = inl e.
Proof.
  rewrite poolRow_eq. unfold accRow.
  destruct (scanRow row columns) as [err|m]; [intros [= <- <-]; by left|].
  destruct (dbnameOf m) as [db|e'|x] eqn:Hdb.
  - destruct (SanitizedAddress p) as [err|a]; [intros [= <- <-]; by eauto|done].
  - by destruct (dbnameOf_not_Err m e').
  - done.
Qed.

Lemma poolRow_panic ro p columns i row acc acc' x :
  poolRow ro p columns i row acc = (acc', Panic x) →
  ∃ m, scanRow row columns = inr m ∧ dbnameOf m = Panic x.
Proof.
  rewrite poolRow_eq.
  destruct (accRow p row columns) as [[t m]|e|y] eqn:Hrow; try done.
  intros [= <- <-]. by apply accRow_Panic in Hrow.
Qed.

Lemma dbnameOf_Panic_inv m x :
  dbnameOf m = Panic x →
  ∃ v, m !! "database" = Some v ∧ (∀ s, v ≠ VString s)
       ∧ x = InterfaceConversion v.
Proof.
  destruct x as [v]. intros [Hv Hs]%dbnameOf_Panic. eauto.
Qed.

(** X3: an error returned by a cycle is never of the plugin's own making:
    it is the error of one of the two queries, of a column listing, of an
    end-of-iteration check, of the scan of a row, of the address
    sanitizer, or the [ParseInt] error of a string found in a statistics
    row under a name outside the ignore set. *)
Theorem Gather_error_source (ro : RangeOrder) (p : Odyssey)
    (acc acc' : Accumulator) (e : error) :
  Gather ro p acc = (acc', Err e) → errorSource p e.
Proof.
  rewrite Gather_phases.
  destruct (phase p "SHOW STATS" (statsRow ro p) acc) as [acc1 r1] eqn:H1.
  assert (∀ q body a a',
    (q = "SHOW STATS" ∨ q = "SHOW POOLS") →
    (∀ columns i row b b', body columns i row b = (b', Err e) →
       scanRow row columns = inl e ∨ SanitizedAddress p = inl e ∨
       (q = "SHOW STATS" ∧
        ∃ m col s, scanRow row columns = inr m ∧
                   m !! col = Some (VString s) ∧ ignore col = false ∧
                   (strconv.ParseInt s).2 = Some e)) →
    phase p q body a = (a', Err e) → errorSource p e) as Hphase.
  { intros q body a a' Hq Hbody Hrun. exists q. split; [done|].
    destruct (phase_fail _ _ _ _ _ _ Hrun eq_refl)
      as [(e' & [= <-] & Hsrc)|Hrow].
    - destruct Hsrc as [?|(rows & ? & [?|?])]; eauto 10.
    - destruct Hrow as (rows & columns & pre & row & post & b & Hq' & Hc
                        & Hrows & _ & Hb).
      right. exists rows. split; [done|]. right. right.
      exists columns, row. split_and!; [done| |by eapply Hbody].
      rewrite Hrows. apply elem_of_app. right. by left. }
  destruct r1 as [[]|e1|x1].
  - intros H2. apply (Hphase _ _ _ _ (or_intror eq_refl)) in H2; [done|].
    intros columns i row b b' Hb.
    apply poolRow_Err in Hb as [?|?]; eauto.
  - intros [= <- <-].
    apply (Hphase _ _ _ _ (or_introl eq_refl)) in H1; [done|].
    intros columns i row b b' Hb.
    apply statsRow_Err in Hb as [?|[?|?]]; eauto.
  - done.
Qed.

(** X4: a cycle panics only on a row, of either result set, whose scanned
    "database" value is not a string. *)
Theorem Gather_panic_source (ro : RangeOrder) (p : Odyssey)
    (acc acc' : Accumulator) (x : panic) :
  Gather ro p acc = (acc', Panic x) → panicSource p x.
Proof.
  rewrite Gather_phases.
  destruct (phase p "SHOW STATS" (statsRow ro p) acc) as [acc1 r1] eqn:H1.
  assert (∀ q body a a',
    (q = "SHOW STATS" ∨ q = "SHOW POOLS") →
    (∀ columns i row b b', body columns i row b = (b', Panic x) →
       ∃ m, scanRow row columns = inr m ∧ dbnameOf m = Panic x) →
    phase p q body a = (a', Panic x) → panicSource p x) as Hphase.
  { intros q body a a' Hq Hbody Hrun.
    destruct (phase_fail _ _ _ _ _ _ Hrun eq_refl) as [(e' & [=] & _)|Hrow].
    destruct Hrow as (rows & columns & pre & row & post & b & Hq' & Hc
                      & Hrows & _ & Hb).
    apply Hbody in Hb as (m & Hscan & Hdb).
    apply dbnameOf_Panic_inv in Hdb as (v & Hv & Hs & ->).
    exists q, rows, columns, row, m, v. split_and!; try done.
    rewrite Hrows. apply elem_of_app. right. by left. }
  destruct r1 as [[]|e1|x1].
  - intros H2. apply (Hphase _ _ _ _ (or_intror eq_refl)) in H2; [done|].
    intros columns i row b b' Hb. by eapply poolRow_panic.
  - done.
  - intros [= <- <-].
    apply (Hphase _ _ _ _ (or_introl eq_refl)) in H1; [done|].
    intros columns i row b b' Hb. by eapply statsRow_panic.
Qed.

Lemma Gather_error_source_witness :
  let p := proxy (rowsOf ["database"; "total_requests"] [[VString "app"]] None)
                 noRows (inr "host=localhost") in
  let e := ExtError "sql: wrong number of destination arguments in Scan" in
  Gather orderFwd p [] = ([], Err e) ∧ errorSource p e.
Proof.
  intros p e.
  assert (Gather orderFwd p [] = ([], Err e)) as Hrun
    by (vm_compute; reflexivity).
  split; [exact Hrun|exact (Gather_error_source orderFwd p [] [] e Hrun)].
Defined.

Lemma Gather_panic_source_witness :
  let p := proxy noRows
                 (rowsOf ["database"; "cl_active"] [[VNil; VInt64 3]] None)
                 (inr "host=localhost") in
  let x := InterfaceConversion VNil in
  Gather orderFwd p [] = ([], Panic x) ∧ panicSource p x.
Proof.
  intros p x.
  assert (Gather orderFwd p [] = ([], Panic x)) as Hrun
    by (vm_compute; reflexivity).
  split; [exact Hrun|exact (Gather_panic_source orderFwd p [] [] x Hrun)].
Defined.

(** ** A failing row in the pool-status pass *)

(** X7: fail-fast in the pool-status pass.  When the statistics pass has
    completed and a pool-status row fails (its scan, the "database"
    assertion or the address sanitizer), the cycle ends with that row's
    error or panic; the metrics of all the statistics rows and of the
    pool-status rows before it stay logged, and nothing is logged for the
    failing row or the rows after it. *)
Theorem Gather_pool_row_fails (ro : RangeOrder) (p : Odyssey) (acc : Accumulator)
    (rows poolRows : Rows) (columns pcolumns : list string)
    (ms1 ms2 : list Metric) (pre post : list scanner) (row : scanner) :
  Query p "SHOW STATS" = inr rows → Columns rows = inr columns →
  rowsErr rows = None →
  Forall2 (λ row M, statsMetricOf p columns row = Some M) (rowList rows) ms1 →
  Query p "SHOW POOLS" = inr poolRows → Columns poolRows = inr pcolumns →
  rowList poolRows = pre ++ row :: post →
  Forall2 (λ row M, poolMetricOf p pcolumns row = Some M) pre ms2 →
  poolMetricOf p pcolumns row = None →
  ∃ r, Gather ro p acc = (acc ++ ms1 ++ ms2, r) ∧
       match accRow p row pcolumns with
       | Ok _ => False
       | Err e => r = Err e
       | Panic x => r = Panic x
       end.
Proof.
  intros Hq Hc He Hms1 Hpq Hpc Hrows Hms2 Hrow.
  rewrite Gather_eq, Hq, Hc, He, Hpq, Hpc, Hrows.
  assert (forRows (statsRow ro p columns) 0 (rowList rows) acc
          = (acc ++ ms1, Ok tt)) as ->.
  { apply (forRows_Ok (statsMetricOf p columns)); [intros; apply statsRow_Ok|].
    eauto. }
  rewrite forRows_app.
  assert (forRows (poolRow ro p pcolumns) 0 pre (acc ++ ms1)
          = ((acc ++ ms1) ++ ms2, Ok tt)) as ->.
  { apply (forRows_Ok (poolMetricOf p pcolumns)); [intros; apply poolRow_Ok|].
    eauto. }
  rewrite <- app_assoc. simpl. unfold bind. rewrite poolRow_eq.
  unfold poolMetricOf in Hrow.
  destruct (accRow p row pcolumns) as [[t m]|e|x]; [done| |]; eauto.
Qed.

Lemma Gather_pool_row_fails_witness :
  let stats := rowsOf ["database"; "total_requests"]
                      [[VString "app"; VString "17"]] None in
  let pools := rowsOf ["database"; "cl_active"]
                      [[VString "app"; VInt64 3]; [VNil; VInt64 4];
                       [VString "app"; VInt64 5]] None in
  let p := proxy stats pools (inr "host=localhost") in
  let M1 := {| measurement := "odyssey";
               fields := {[ "total_requests" := VInt64 17 ]};
               tags := <["server" := "host=localhost"]> (<["db" := "app"]> ∅) |} in
  let M2 := {| measurement := "odyssey_pools";
               fields := {[ "cl_active" := VInt64 3 ]};
               tags := <["server" := "host=localhost"]> (<["db" := "app"]> ∅) |} in
  Gather orderRev p [] = ([M1; M2], Panic (InterfaceConversion VNil)).
Proof.
  intros stats pools p M1 M2.
  destruct (Gather_pool_row_fails orderRev p [] stats pools
              ["database"; "total_requests"] ["database"; "cl_active"]
              [M1] [M2] [sqlRow [VString "app"; VInt64 3]]
              [sqlRow [VString "app"; VInt64 5]] (sqlRow [VNil; VInt64 4]))
    as (r & Hrun & Hr);
    [reflexivity | reflexivity | reflexivity
    |repeat constructor; vm_compute; reflexivity
    |reflexivity | reflexivity | reflexivity
    |repeat constructor; vm_compute; reflexivity
    |vm_compute; reflexivity |].
  vm_compute in Hr. subst r. exact Hrun.
Defined.

(** ** A cycle does not depend on the order of map iteration nor on the
       accumulator *)

Lemma sameOutcome_refl r : sameOutcome r r.
Proof. destruct r; simpl; auto. Qed.

Lemma statsRow_orders ro1 ro2 p columns i1 i2 row a1 a2 :
  ∃ ms r1 r2,
    statsRow ro1 p columns i1 row a1 = (a1 ++ ms, r1) ∧
    statsRow ro2 p columns i2 row a2 = (a2 ++ ms, r2) ∧
    sameOutcome r1 r2.
Proof.
  rewrite !statsRow_eq.
  destruct (accRow p row columns) as [[t m]|e|x].
  - destruct (badRowb m) eqn:Hb.
    + apply badRowb_spec in Hb.
      destruct (proj1 (statsFields_range_inl ro1 i1 m) Hb) as [e1 H1].
      destruct (proj1 (statsFields_range_inl ro2 i2 m) Hb) as [e2 H2].
      rewrite H1, H2. exists [], (Err e1), (Err e2). rewrite !app_nil_r.
      split_and!; [done..|]. right.
      apply statsFields_inl in H1 as (c1 & s1 & _ & _ & Hp1).
      apply statsFields_inl in H2 as (c2 & s2 & _ & _ & Hp2).
      apply ParseInt_error in Hp1 as [k1 ->].
      apply ParseInt_error in Hp2 as [k2 ->]. eauto 10.
    + apply badRowb_false in Hb. rewrite !statsFields_good by done.
      eexists [_], (Ok tt), (Ok tt). done.
  - exists [], (Err e), (Err e). rewrite !app_nil_r. split_and!; [done..|by left].
  - exists [], (Panic x), (Panic x). by rewrite !app_nil_r.
Qed.

Lemma poolRow_orders ro1 ro2 p columns i1 i2 row a1 a2 :
  ∃ ms r1 r2,
    poolRow ro1 p columns i1 row a1 = (a1 ++ ms, r1) ∧
    poolRow ro2 p columns i2 row a2 = (a2 ++ ms, r2) ∧
    sameOutcome r1 r2.
Proof.
  rewrite !poolRow_eq.
  destruct (accRow p row columns) as [[t m]|e|x].
  - eexists [_], (Ok tt), (Ok tt). done.
  - exists [], (Err e), (Err e). rewrite !app_nil_r. split_and!; [done..|by left].
  - exists [], (Panic x), (Panic x). by rewrite !app_nil_r.
Qed.

Lemma forRows_orders (body1 body2 : nat → scanner → Run unit) :
  (∀ i1 i2 row a1 a2, ∃ ms r1 r2,
     body1 i1 row a1 = (a1 ++ ms, r1) ∧ body2 i2 row a2 = (a2 ++ ms, r2) ∧
     sameOutcome r1 r2) →
  ∀ rows i1 i2 a1 a2, ∃ ms r1 r2,
    forRows body1 i1 rows a1 = (a1 ++ ms, r1) ∧
    forRows body2 i2 rows a2 = (a2 ++ ms, r2) ∧
    sameOutcome r1 r2.
Proof.
  intros Hbody rows. induction rows as [|row rows IH]; intros i1 i2 a1 a2.
  { exists [], (Ok tt), (Ok tt). by rewrite !app_nil_r. }
  simpl. unfold bind.
  destruct (Hbody i1 i2 row a1 a2) as (ms & r1 & r2 & -> & -> & Hsame).
  destruct r1 as [[]|e1|x1], r2 as [[]|e2|x2]; try done.
  - destruct (IH (S i1) (S i2) (a1 ++ ms) (a2 ++ ms))
      as (ms' & r1 & r2 & -> & -> & Hsame').
    exists (ms ++ ms'), r1, r2. by rewrite !app_assoc.
  - by exists ms, (Err e1), (Err e2).
  - by exists ms, (Panic x1), (Panic x2).
Qed.

Lemma phase_orders p q (body1 body2 : list string → nat → scanner → Run unit) :
  (∀ columns i1 i2 row a1 a2, ∃ ms r1 r2,
     body1 columns i1 row a1 = (a1 ++ ms, r1) ∧
     body2 columns i2 row a2 = (a2 ++ ms, r2) ∧ sameOutcome r1 r2) →
  ∀ a1 a2, ∃ ms r1 r2,
    phase p q body1 a1 = (a1 ++ ms, r1) ∧
    phase p q body2 a2 = (a2 ++ ms, r2) ∧ sameOutcome r1 r2.
Proof.
  intros Hbody a1 a2. rewrite !phase_eq.
  destruct (Query p q) as [err|rows].
  { exists [], (Err err), (Err err). rewrite !app_nil_r.
    split_and!; [done..|by left]. }
  destruct (Columns rows) as [err|columns].
  { exists [], (Err err), (Err err). rewrite !app_nil_r.
    split_and!; [done..|by left]. }
  destruct (forRows_orders _ _ (Hbody columns) (rowList rows) 0%nat 0%nat a1 a2)
    as (ms & r1 & r2 & -> & -> & Hsame).
  destruct r1 as [[]|e1|x1], r2 as [[]|e2|x2]; try done.
  - destruct (rowsErr rows) as [err|].
    + exists ms, (Err err), (Err err). split_and!; [done..|by left].
    + by exists ms, (Ok tt), (Ok tt).
  - by exists ms, (Err e1), (Err e2).
  - by exists ms, (Panic x1), (Panic x2).
Qed.

(** X8: the metrics a cycle logs, and the way it ends, depend neither on
    the order in which Go ranges over the column maps nor on what the
    accumulator already holds: two runs against the same collaborators
    append the same metrics and both succeed, both panic on the same
    value or both return an error, the same one unless both are
    [ParseInt] errors. *)
Theorem Gather_order_independent (ro1 ro2 : RangeOrder) (p : Odyssey)
    (acc1 acc2 : Accumulator) :
  ∃ ms r1 r2,
    Gather ro1 p acc1 = (acc1 ++ ms, r1) ∧
    Gather ro2 p acc2 = (acc2 ++ ms, r2) ∧
    sameOutcome r1 r2.
Proof.
  rewrite !Gather_phases.
  destruct (phase_orders p "SHOW STATS" (statsRow ro1 p) (statsRow ro2 p))
    with (a1 := acc1) (a2 := acc2) as (ms1 & r1 & r2 & -> & -> & Hsame);
    [intros; apply statsRow_orders|].
  destruct r1 as [[]|e1|x1], r2 as [[]|e2|x2]; try done.
  - destruct (phase_orders p "SHOW POOLS" (poolRow ro1 p) (poolRow ro2 p))
      with (a1 := acc1 ++ ms1) (a2 := acc2 ++ ms1)
      as (ms2 & r1 & r2 & -> & -> & Hsame');
      [intros; apply poolRow_orders|].
    exists (ms1 ++ ms2), r1, r2. by rewrite !app_assoc.
  - by exists ms1, (Err e1), (Err e2).
  - by exists ms1, (Panic x1), (Panic x2).
Qed.

(** ** The column map *)

Lemma newColumnMap_dom columns :
  dom (newColumnMap columns) = (list_to_set columns : gset string).
Proof.
  apply set_eq. intros k.
  rewrite elem_of_dom, newColumnMap_lookup, elem_of_list_to_set.
  case_decide; split; try done; try (by intros []).
Qed.

Lemma store_dom dests vals (m : gmap string value) :
  (∀ k, k ∈ dests → is_Some (m !! k)) → dom (store dests vals m) = dom m.
Proof.
  unfold store. revert vals m.
  induction dests as [|d dests IH]; intros vals m Hin; [done|].
  destruct vals as [|v vals]; [done|]. simpl. rewrite IH.
  - rewrite dom_insert_L. apply set_eq. intros k.
    rewrite elem_of_union, elem_of_singleton, !elem_of_dom.
    split; [intros [->|?]; [apply Hin; by left|done]|by right].
  - intros k Hk. destruct (decide (d = k)) as [->|Hne].
    + rewrite lookup_insert_eq. eauto.
    + rewrite lookup_insert_ne by done. apply Hin. by right.
Qed.

(** X9: whatever the scanner stores, a row that scans leaves a column map
    with an entry for every column name of the result set and for nothing
    else. *)
Theorem scanRow_keys (row : scanner) (columns : list string)
    (m : gmap string value) :
  scanRow row columns = inr m →
  ∀ k, is_Some (m !! k) ↔ k ∈ columns.
Proof.
  unfold scanRow, newColumnVars.
  destruct (Scan row _) as [err|vals]; [done|]. intros [= <-] k.
  rewrite <- elem_of_dom, store_dom, newColumnMap_dom, elem_of_list_to_set; [done|].
  intros k' Hk'. apply elem_of_dom. rewrite newColumnMap_dom.
  apply elem_of_list_to_set. revert Hk'. apply subseteq_take.
Qed.

Lemma scanRow_keys_witness :
  let columns := ["database"; "cl_active"; "cl_waiting"] in
  let row := {| Scan n := inr [VString "app"] |} in
  let m : gmap string value :=
    <["database" := VString "app"]> (<["cl_active" := VNil]>
    (<["cl_waiting" := VNil]> ∅)) in
  scanRow row columns = inr m ∧ ∀ k, is_Some (m !! k) ↔ k ∈ columns.
Proof.
  intros columns row m.
  assert (scanRow row columns = inr m) as Hscan by (vm_compute; reflexivity).
  split; [exact Hscan|exact (scanRow_keys row columns m Hscan)].
Defined.

Lemma size_list_to_set_le (l : list string) :
  (size (list_to_set l : gset string) ≤ length l)%nat.
Proof.
  induction l as [|x l IH].
  { rewrite list_to_set_nil, size_empty. done. }
  rewrite list_to_set_cons, size_union_alt, size_singleton.
  pose proof (subseteq_size (list_to_set l ∖ {[x]}) (list_to_set l : gset string)
                ltac:(set_solver)).
  simpl. lia.
Qed.

Lemma size_list_to_set_lt (l : list string) :
  ¬ NoDup l → (size (list_to_set l : gset string) < length l)%nat.
Proof.
  induction l as [|x l IH]; intros Hdup.
  { destruct Hdup. constructor. }
  rewrite list_to_set_cons.
  destruct (decide (x ∈ l)) as [Hin|Hnin].
  - replace ({[x]} ∪ list_to_set l : gset string) with (list_to_set l : gset string).
    + pose proof (size_list_to_set_le l). simpl. lia.
    + apply set_eq. intros k. rewrite elem_of_union, elem_of_singleton,
        elem_of_list_to_set. split; [by right|]. by intros [->|?].
  - assert (¬ NoDup l) as Hl by (intros ?; apply Hdup; by constructor).
    specialize (IH Hl).
    rewrite size_union by (apply disjoint_singleton_l; by rewrite elem_of_list_to_set).
    rewrite size_singleton. simpl. lia.
Qed.

(** X10: a result set in which a column name occurs twice cannot be
    processed: [accRow] hands the driver as many destinations as there are
    distinct names, the driver wants one per column, and every row that
    has one value per column fails with the driver's error. *)
Theorem duplicate_columns_fail (p : Odyssey) (columns : list string)
    (vals : list value) :
  ¬ NoDup columns → length vals = length columns →
  ∃ e, scanRow (sqlRow vals) columns = inl e ∧
       accRow p (sqlRow vals) columns = Err e.
Proof.
  intros Hdup Hlen. unfold accRow, scanRow, newColumnVars. simpl.
  rewrite length_take, <- size_dom, newColumnMap_dom.
  pose proof (size_list_to_set_lt columns Hdup).
  rewrite decide_False by lia. eauto.
Qed.

Lemma duplicate_columns_fail_witness :
  let p := proxy noRows noRows (inr "host=localhost") in
  let columns := ["database"; "cl_active"; "database"] in
  let vals := [VString "app"; VInt64 3; VString "app"] in
  ∃ e, scanRow (sqlRow vals) columns = inl e ∧
       accRow p (sqlRow vals) columns = Err e.
Proof.
  intros p columns vals.
  apply (duplicate_columns_fail p columns vals); [|reflexivity].
  intros Hnd. inversion Hnd as [|? ? Hnin _]; subst. apply Hnin.
  right. left.
Defined.

(** X11: with distinct column names and one value per column, the scan of
    a driver row succeeds and files every value under the name of its own
    column. *)
Theorem scanRow_aligned (columns : list string) (vals : list value) :
  NoDup columns → length columns = length vals →
  ∃ m, scanRow (sqlRow vals) columns = inr m ∧
       ∀ i c v, columns !! i = Some c → vals !! i = Some v → m !! c = Some v.
Proof.
  intros Hnd Hlen. eexists. split; [by apply scanRow_sqlRow|].
  intros i c v Hc Hv. apply elem_of_list_to_map_1.
  - by rewrite fst_zip by lia.
  - apply list_elem_of_lookup. exists i.
    rewrite lookup_zip_with, Hc, Hv. done.
Qed.

Lemma scanRow_aligned_witness :
  let columns := ["user"; "database"; "cl_active"] in
  let vals := [VString "bob"; VString "app"; VInt64 3] in
  ∃ m, scanRow (sqlRow vals) columns = inr m ∧
       m !! "cl_active" = Some (VInt64 3) ∧ m !! "user" = Some (VString "bob").
Proof.
  intros columns vals.
  destruct (scanRow_aligned columns vals) as (m & Hscan & Hall);
    [|reflexivity|].
  { apply (bool_decide_unpack (NoDup columns)). vm_compute. exact I. }
  exists m. split; [exact Hscan|]. split.
  - apply (Hall 2%nat); reflexivity.
  - apply (Hall 0%nat); reflexivity.
Defined.

(** ** Which strings the statistics pass accepts *)

(** X12: [ParseInt] returns a nil error, and the integer [i], exactly on
    an optional sign followed by one or more decimal digits that denote
    [i] within the [int64] range; in the statistics pass, any other string
    in a column outside the ignore set (the empty string, a blank, a
    decimal point, an exponent, an underscore) fails the cycle. *)
Theorem ParseInt_accepts (s : string) (i : Z) :
  strconv.ParseInt s = (i, None) ↔
  ∃ body n, body ≠ EmptyString ∧ decimal body 0 = Some n ∧
    ((s = body ∨ s = String "+" body) ∧ i = n ∧ n < 2 ^ 63
     ∨ s = String "-" body ∧ i = - n ∧ n ≤ 2 ^ 63).
Proof.
  split.
  - intros Hp. destruct (ParseInt_sound s i Hp) as (Hr & body & Hne & Hcase).
    destruct Hcase as [[Hs Hdec]|[Hs Hdec]].
    + exists body, i. split_and!; [done..|]. left. split_and!; [done|done|lia].
    + exists body, (- i). split_and!; [done..|]. right.
      split_and!; [done|lia|lia].
  - intros (body & n & Hne & Hdec & Hcase).
    destruct (ParseInt_complete body n Hne Hdec) as [Hpos Hneg].
    destruct Hcase as [([->| ->] & -> & Hn)|(-> & -> & Hn)].
    + by apply Hpos.
    + by apply Hpos.
    + by apply Hneg.
Qed.

(** ** The "db" tag, where [accRow] returns *)

(** X13: when [accRow] returns, the "database" column is absent or holds a
    string; the "db" tag is that string, be it empty, and "postgres" only
    when the row has no "database" column. *)
Theorem accRow_db_tag (p : Odyssey) (row : scanner) (columns : list string)
    (tags : gmap string string) (m : gmap string value) :
  accRow p row columns = Ok (tags, m) →
  (m !! "database" = None ∧ tags !! "db" = Some "postgres") ∨
  (∃ s, m !! "database" = Some (VString s) ∧ tags !! "db" = Some s).
Proof.
  rewrite accRow_eq. destruct (scanRow row columns) as [err|m']; [done|].
  destruct (m' !! "database") as [v|] eqn:Hdb;
    [destruct v; try done|];
    destruct (SanitizedAddress p); try done; intros [= <- <-].
  - right. exists s. by rewrite Hdb.
  - left. by rewrite Hdb.
Qed.

Lemma accRow_db_tag_witness :
  let p := proxy noRows noRows (inr "host=localhost") in
  let columns := ["database"; "cl_active"] in
  let row := sqlRow [VString EmptyString; VInt64 3] in
  let tags : gmap string string :=
    <["server" := "host=localhost"]> (<["db" := EmptyString]> ∅) in
  let m : gmap string value :=
    <["database" := VString EmptyString]> (<["cl_active" := VInt64 3]> ∅) in
  accRow p row columns = Ok (tags, m) ∧ tags !! "db" = Some EmptyString.
Proof.
  intros p columns row tags m.
  assert (accRow p row columns = Ok (tags, m)) as Hrow
    by (vm_compute; reflexivity).
  split; [exact Hrow|].
  destruct (accRow_db_tag p row columns tags m Hrow)
    as [[Hnone _]|(s & Hs & Hdb)].
  - vm_compute in Hnone. discriminate.
  - vm_compute in Hs. injection Hs as <-. exact Hdb.
Defined.
